(** * moon_phase_img_maker: the illumination kernel of [main.py]

    A shallow embedding of [tools/moon_phase_img_maker/src/main.py]:
    the two-circle overlap area, its inversion by bisection, the
    four-layer renderer of the moon icon, and the export stage that asks
    the almanac for the phase of each day and writes the icons to files.

    Python's [int] is [Z].  Python's [float] is kept abstract behind the
    interface [PyFloat], so that every function of the source is written
    once, operation by operation, and then read at two instances:
    - [B64.binary64]: IEEE-754 binary64 ([PrimFloat]), the numbers CPython
      computes with; the C library's [sin], [cos] and [acos] are a
      parameter of the instance.  The facts about the renderer's control
      flow are proved here, and the code is run here on concrete inputs;
    - [RFloat]: exact real arithmetic ([R]), the level at which the
      geometric laws (areas, bounds, monotonicity, symmetry) are stated and
      proved, rounding left aside.

    Exceptions are values: a function that may raise returns a [result]. *)

From Stdlib Require Import Floats.
From Stdlib Require Uint63.
From Stdlib Require Import ZArith List Bool Lia.
From Stdlib Require Import Reals Lra.
From Stdlib Require Ascii String DecimalString DecimalPos.
Import ListNotations.

Set Warnings "-inexact-float".

(** ** Exceptions *)

Inductive exn : Type :=
| ZeroDivisionError
| ValueError
| IndexError.

Inductive result (A : Type) : Type :=
| Ok (a : A)
| Raise (e : exn).

Arguments Ok {A} a.
Arguments Raise {A} e.

Definition bind {A B : Type} (m : result A) (k : A -> result B) : result B :=
  match m with
  | Ok a => k a
  | Raise e => Raise e
  end.

Notation "x <- m ;; k" := (bind m (fun x => k))
  (at level 61, m at next level, right associativity).

(** [for x in l: ...], collecting what each iteration produces; the first
    exception ends the loop. *)
Fixpoint for_each {A B : Type} (f : A -> result B) (l : list A) : result (list B) :=
  match l with
  | [] => Ok []
  | x :: xs => y <- f x ;; ys <- for_each f xs ;; Ok (y :: ys)
  end.

(** [range(n)] *)
Definition range (n : Z) : list Z := map Z.of_nat (seq 0 (Z.to_nat n)).

(** ** Python floats, as an interface *)

Class PyFloat (F : Type) : Type := {
  of_int : Z -> F;                (* an int promoted to float *)
  int_div : Z -> Z -> F;          (* [a / b] on ints, [b] not 0 *)
  fadd : F -> F -> F;
  fsub : F -> F -> F;
  fmul : F -> F -> F;
  fdiv : F -> F -> F;             (* [x / y], [y] not 0 *)
  fneg : F -> F;
  fmod : F -> F -> F;             (* [x % y], [y] not 0 *)
  feqb : F -> F -> bool;          (* [x == y] *)
  fltb : F -> F -> bool;          (* [x < y] *)
  fleb : F -> F -> bool;          (* [x <= y] *)
  fsqrt : F -> F;                 (* [math.sqrt] on its domain *)
  fsin : F -> F;                  (* [math.sin] *)
  fcos : F -> F;                  (* [math.cos] *)
  facos : F -> F;                 (* [math.acos] on its domain *)
  fpi : F;                        (* [math.pi] *)
  c_half : F;                     (* the literal [0.5] *)
  c_1em3 : F;                     (* the literal [1e-3] *)
  c_1em4 : F                      (* the literal [1e-4] *)
}.

Declare Scope py_scope.
Delimit Scope py_scope with py.
Infix "+" := fadd : py_scope.
Infix "-" := fsub : py_scope.
Infix "*" := fmul : py_scope.
Infix "/" := fdiv : py_scope.
Infix "==" := feqb (at level 70, no associativity) : py_scope.
Infix "<?" := fltb : py_scope.
Infix "<=?" := fleb : py_scope.
Notation "- x" := (fneg x) : py_scope.

Section Python.

Context {F : Type} `{PyFloat F}.
Local Open Scope py_scope.

(** Operators and [math] functions that can raise. *)

(** [x / y] on floats: [ZeroDivisionError] when [y == 0]. *)
Definition py_div (x y : F) : result F :=
  if y == of_int 0 then Raise ZeroDivisionError else Ok (x / y).

(** [a / b] on ints (true division): [ZeroDivisionError] when [b == 0]. *)
Definition py_int_truediv (a b : Z) : result F :=
  if (b =? 0)%Z then Raise ZeroDivisionError else Ok (int_div a b).

(** [math.sqrt(x)]: [ValueError] below zero. *)
Definition math_sqrt (x : F) : result F :=
  if x <? of_int 0 then Raise ValueError else Ok (fsqrt x).

(** [math.acos(x)]: [ValueError] outside [-1, 1]. *)
Definition math_acos (x : F) : result F :=
  if (x <? - of_int 1) || (of_int 1 <? x) then Raise ValueError else Ok (facos x).

(** [math.radians(x)]: CPython multiplies by the constant [pi / 180]. *)
Definition math_radians (x : F) : F := x * (fpi / of_int 180).

(** The builtins [max(a, b)] and [min(a, b)]: the first argument is kept
    unless the second is strictly beyond it. *)
Definition py_max (a b : F) : F := if a <? b then b else a.
Definition py_min (a b : F) : F := if b <? a then b else a.

(** ** PhaseGeometry *)

(** [circle_overlap_area_equal_r(d, r)], main.py lines 36-44. *)
Definition circle_overlap_area_equal_r (d r : F) : result F :=
  if d <=? of_int 0 then Ok (fpi * r * r)
  else if of_int 2 * r <=? d then Ok (of_int 0)
  else
    q <- py_div d (of_int 2 * r) ;;
    a <- math_acos q ;;
    s <- math_sqrt (of_int 4 * r * r - d * d) ;;
    Ok (of_int 2 * r * r * a - c_half * d * s).

(** The closure [lit_from_d] of [d_from_lit_fraction], lines 60-62; the
    variables it captures ([r], [area_circle]) are arguments. *)
Definition lit_from_d (r area_circle dval : F) : result F :=
  overlap <- circle_overlap_area_equal_r dval r ;;
  q <- py_div overlap area_circle ;;
  Ok (of_int 1 - q).

(** [n] turns of the loop of lines 66-71 from the state [(lo, hi)]. *)
Fixpoint bisect (n : nat) (f r area_circle lo hi : F) : result (F * F) :=
  match n with
  | O => Ok (lo, hi)
  | S n' =>
      let mid := (lo + hi) / of_int 2 in
      l <- lit_from_d r area_circle mid ;;
      if l <? f then bisect n' f r area_circle mid hi
      else bisect n' f r area_circle lo mid
  end.

(** [d_from_lit_fraction(f, r)], lines 47-74. *)
Definition d_from_lit_fraction (f r : F) : result F :=
  if f <=? of_int 0 then Ok (of_int 0)
  else
    let eps := py_max c_1em3 (r * c_1em4) in
    if of_int 1 <=? f then Ok (of_int 2 * r - eps)
    else
      let area_circle := fpi * r * r in
      lh <- bisect 40 f r area_circle (of_int 0) (of_int 2 * r - eps) ;;
      let d := (fst lh + snd lh) / of_int 2 in
      Ok (py_min d (of_int 2 * r - eps)).

End Python.

(** ** Pillow: images, drawing and compositing

    Pillow is a dependency of the script, not part of it.  An image is the
    list of its rows; the operations the script calls are modelled pixel by
    pixel.  What [ImageDraw.ellipse] paints for a bounding box is left to a
    [Rasteriser]; the theorems below hold for every rasteriser. *)

Definition rgb : Type := (Z * Z * Z)%type.
Definition rgba : Type := (Z * Z * Z * Z)%type.
Definition bbox : Type := (Z * Z * Z * Z)%type.
Definition image (A : Type) : Type := list (list A).

(** [img.load()[x, y]]; [None] outside the image. *)
Definition getpixel {A : Type} (img : image A) (x y : Z) : option A :=
  if (x <? 0)%Z || (y <? 0)%Z then None
  else match nth_error img (Z.to_nat y) with
       | Some row => nth_error row (Z.to_nat x)
       | None => None
       end.

(** [Image.new(mode, (size, size), color)]; Pillow refuses a negative size. *)
Definition Image_new {A : Type} (size : Z) (color : A) : result (image A) :=
  if (size <? 0)%Z then Raise ValueError
  else Ok (repeat (repeat color (Z.to_nat size)) (Z.to_nat size)).

Fixpoint imap_row {A B : Type} (f : Z -> A -> B) (x : Z) (row : list A) : list B :=
  match row with
  | [] => []
  | p :: ps => f x p :: imap_row f (x + 1)%Z ps
  end.

Fixpoint imap_rows {A B : Type} (f : Z -> Z -> A -> B) (y : Z) (img : image A) : image B :=
  match img with
  | [] => []
  | row :: rows => imap_row (fun x p => f x y p) 0%Z row :: imap_rows f (y + 1)%Z rows
  end.

(** A new image whose pixel at [(x, y)] is [f x y] of the old one. *)
Definition imap {A B : Type} (f : Z -> Z -> A -> B) (img : image A) : image B :=
  imap_rows f 0%Z img.

Fixpoint map2 {A B C : Type} (f : A -> B -> C) (l1 : list A) (l2 : list B) : list C :=
  match l1, l2 with
  | a :: l1', b :: l2' => f a b :: map2 f l1' l2'
  | _, _ => []
  end.

(** The pixels [ImageDraw.ellipse(bbox, fill=...)] paints, and those
    [ImageDraw.ellipse(bbox, outline=..., width=1)] paints. *)
Record Rasteriser : Type := {
  ellipse_fill : bbox -> Z -> Z -> bool;
  ellipse_outline : bbox -> Z -> Z -> bool
}.

Definition draw_ellipse_fill {A : Type} (P : Rasteriser) (b : bbox) (ink : A)
    (img : image A) : image A :=
  imap (fun x y old => if ellipse_fill P b x y then ink else old) img.

Definition draw_ellipse_outline {A : Type} (P : Rasteriser) (b : bbox) (ink : A)
    (img : image A) : image A :=
  imap (fun x y old => if ellipse_outline P b x y then ink else old) img.

(** One pixel of [Image.alpha_composite(dst, src)]: Pillow's 8-bit integer
    source-over.  A transparent source pixel keeps the destination; the
    script only ever composites alpha 0 and alpha 255. *)
Definition shift_for_div255 (a : Z) : Z := Z.shiftr (Z.shiftr a 8 + a) 8.

Definition over_channel (s d coef1 coef2 : Z) : Z :=
  Z.shiftr (shift_for_div255 (s * coef1 + d * coef2 + Z.shiftl 128 7)) 7.

Definition over (dst src : rgba) : rgba :=
  let '(dr, dg, db, da) := dst in
  let '(sr, sg, sb, sa) := src in
  if (sa =? 0)%Z then dst
  else
    let blend := (da * (255 - sa))%Z in
    let outa255 := (sa * 255 + blend)%Z in
    let coef1 := (sa * 255 * 255 * Z.shiftl 1 7 / outa255)%Z in
    let coef2 := (255 * Z.shiftl 1 7 - coef1)%Z in
    (over_channel sr dr coef1 coef2,
     over_channel sg dg coef1 coef2,
     over_channel sb db coef1 coef2,
     shift_for_div255 (outa255 + 128)).

Definition alpha_composite (dst src : image rgba) : image rgba :=
  map2 (map2 over) dst src.

(** [img.putalpha(mask)]: the alpha band becomes the mask. *)
Definition putalpha (img : image rgba) (mask : image Z) : image rgba :=
  map2 (map2 (fun (p : rgba) (a : Z) => let '(r, g, b, _) := p in (r, g, b, a))) img mask.

(** [img.convert("RGB")] of an RGBA image: the alpha band is dropped. *)
Definition convert_RGB (img : image rgba) : image rgb :=
  map (map (fun p : rgba => let '(r, g, b, _) := p in (r, g, b))) img.

(** [color + (a,)] *)
Definition with_alpha (c : rgb) (a : Z) : rgba := let '(r, g, b) := c in (r, g, b, a).

(** ** Settings, main.py lines 22-26 *)

Definition SIZE : Z := 128.
Definition MARGIN : Z := 8.
Definition BG : rgb := (255, 255, 255)%Z.
Definition MOON : rgb := (255, 214, 0)%Z.
Definition SHADOW : rgb := (0, 0, 0)%Z.

(** ** IconRenderer *)

(** Lines 87-88: the centre and the radius of the disk. *)
Definition center_of (size : Z) : Z := (size / 2)%Z.
Definition radius_of (size margin : Z) : Z := ((size - 2 * margin) / 2)%Z.
Definition bbox_of (size margin : Z) : bbox :=
  let cx := center_of size in
  let cy := cx in
  let r := radius_of size margin in
  (cx - r, cy - r, cx + r, cy + r)%Z.

Section Renderer.

Context {F : Type} `{PyFloat F}.
Local Open Scope py_scope.

(** Lines 106-111. *)
Definition sun_dir (phase_deg : F) : F * F * F :=
  let sun_angle := math_radians (fmod phase_deg (of_int 360)) in
  (fsin sun_angle, of_int 0, - fcos sun_angle).

(** The body of the inner loop, lines 116-125: what [lit_pixels[px, py]]
    holds after the iteration, 0 where the loop [continue]s. *)
Definition lit_pixel (moon_pixels : image Z) (sun : F * F * F) (cx r : Z) (dy : F)
    (py px : Z) : result Z :=
  match getpixel moon_pixels px py with
  | None => Raise IndexError
  | Some m =>
      if (m =? 0)%Z then Ok 0%Z
      else
        dx <- py_int_truediv (px - cx) r ;;
        let nz_sq := of_int 1 - dx * dx - dy * dy in
        if nz_sq <=? of_int 0 then Ok 0%Z
        else
          dz <- math_sqrt nz_sq ;;
          let dot := dx * fst (fst sun) + dy * snd (fst sun) + dz * snd sun in
          if of_int 0 <? dot then Ok 255%Z else Ok 0%Z
  end.

(** The loops of lines 113-125.  Every pixel is written at most once, in
    its own iteration, so the mask they leave is the grid of the
    iterations' results. *)
Definition lit_loops (moon_pixels : image Z) (sun : F * F * F) (size cx cy r : Z)
    : result (image Z) :=
  for_each (fun py =>
    dy <- py_int_truediv (py - cy) r ;;
    for_each (lit_pixel moon_pixels sun cx r dy py) (range size))
    (range size).

(** [render_moon_icon], lines 77-136.  [fraction] and [waxing] are the
    keyword arguments of the source. *)
Definition render_moon_icon (P : Rasteriser) (fraction : F) (waxing : bool)
    (phase_deg : F) (size margin : Z) : result (image rgb) :=
  let cx := center_of size in
  let cy := cx in
  let r := radius_of size margin in
  let box := bbox_of size margin in
  blank_mask <- Image_new size 0%Z ;;
  let moon_mask := draw_ellipse_fill P box 255%Z blank_mask in
  canvas <- Image_new size (with_alpha BG 255) ;;
  (* layer 1 *)
  blank_base <- Image_new size (0, 0, 0, 0)%Z ;;
  let base_layer := draw_ellipse_fill P box (with_alpha SHADOW 255) blank_base in
  let result1 := alpha_composite canvas base_layer in
  (* layer 2 *)
  lit_mask <- lit_loops moon_mask (sun_dir phase_deg) size cx cy r ;;
  blank_lit <- Image_new size (with_alpha MOON 0) ;;
  let lit_layer := putalpha blank_lit lit_mask in
  let result2 := alpha_composite result1 lit_layer in
  (* layer 4; the ink [(0, 0, 0)] is opaque on an RGBA image *)
  blank_outline <- Image_new size (0, 0, 0, 0)%Z ;;
  let outline_layer := draw_ellipse_outline P box (0, 0, 0, 255)%Z blank_outline in
  let result3 := alpha_composite result2 outline_layer in
  Ok (convert_RGB result3).

(** The local [lit_mask] of [render_moon_icon] when the loops of lines
    113-125 are done. *)
Definition render_lit_mask (P : Rasteriser) (phase_deg : F) (size margin : Z)
    : result (image Z) :=
  let cx := center_of size in
  blank_mask <- Image_new size 0%Z ;;
  let moon_mask := draw_ellipse_fill P (bbox_of size margin) 255%Z blank_mask in
  lit_loops moon_mask (sun_dir phase_deg) size cx cx (radius_of size margin).

(** The value the loop body leaves at a pixel whose disk-mask value is
    [m]: [lit_pixel] without its exceptions. *)
Definition mask_value (m : Z) (sun : F * F * F) (dx dy : F) : Z :=
  if (m =? 0)%Z then 0%Z
  else
    let nz_sq := of_int 1 - dx * dx - dy * dy in
    if nz_sq <=? of_int 0 then 0%Z
    else if of_int 0 <? dx * fst (fst sun) + dy * snd (fst sun) + fsqrt nz_sq * snd sun
         then 255%Z
         else 0%Z.

(** The grid of these values over the whole image. *)
Definition lit_grid (P : Rasteriser) (phase_deg : F) (size margin : Z) : image Z :=
  map (fun py =>
    map (fun px =>
      mask_value (if ellipse_fill P (bbox_of size margin) px py then 255 else 0)%Z
        (sun_dir phase_deg)
        (int_div (px - center_of size) (radius_of size margin))
        (int_div (py - center_of size) (radius_of size margin)))
      (range size))
    (range size).

End Renderer.

(** What the four layers leave at a pixel, given whether the ellipse fill
    and the outline cover it and the value [v] of the lit mask there. *)
Definition composite_pixel (fill outline : bool) (v : Z) : rgb :=
  let base := if fill then with_alpha SHADOW 255 else (0, 0, 0, 0)%Z in
  let edge := if outline then (0, 0, 0, 255)%Z else (0, 0, 0, 0)%Z in
  let '(r, g, b, _) :=
    over (over (over (with_alpha BG 255) base) (with_alpha MOON v)) edge in
  (r, g, b).

(** ** Exact real arithmetic *)

Definition Reqb (x y : R) : bool := if Req_dec_T x y then true else false.
Definition Rltb (x y : R) : bool := if Rlt_dec x y then true else false.
Definition Rleb (x y : R) : bool := if Rle_dec x y then true else false.

(** [x % y] for a positive [y]: [x] minus the largest multiple of [y] not above it. *)
Definition Rpymod (x y : R) : R := (x - y * IZR (Int_part (x / y)))%R.

#[export] Instance RFloat : PyFloat R := {|
  of_int := IZR;
  int_div := fun a b => (IZR a / IZR b)%R;
  fadd := Rplus;
  fsub := Rminus;
  fmul := Rmult;
  fdiv := Rdiv;
  fneg := Ropp;
  fmod := Rpymod;
  feqb := Reqb;
  fltb := Rltb;
  fleb := Rleb;
  fsqrt := sqrt;
  fsin := sin;
  fcos := cos;
  facos := acos;
  fpi := PI;
  c_half := (1 / 2)%R;
  c_1em3 := (1 / 1000)%R;
  c_1em4 := (1 / 10000)%R
|}.

(** ** IEEE-754 binary64 *)

Module B64.

(** The C library behind [math.sin], [math.cos] and [math.acos]. *)
Record Libm : Type := {
  libm_sin : float -> float;
  libm_cos : float -> float;
  libm_acos : float -> float
}.

(** [float(z)]; exact for [|z| < 2^53], which covers every pixel
    coordinate and every integer literal of the script. *)
Definition of_Z (z : Z) : float :=
  match z with
  | Z0 => 0%float
  | Zpos _ => of_uint63 (Uint63.of_Z z)
  | Zneg p => (- of_uint63 (Uint63.of_Z (Zpos p)))%float
  end.

(** C's [fmod(x, y)]: the exact remainder of the truncated quotient, with
    the sign of [x]. *)
Definition c_fmod (x y : float) : float :=
  match Prim2SF x, Prim2SF y with
  | S754_nan, _ | _, S754_nan => nan
  | S754_infinity _, _ | _, S754_zero _ => nan
  | S754_zero _, _ | _, S754_infinity _ => x
  | S754_finite sx mx ex, S754_finite _ my ey =>
      let e := Z.min ex ey in
      let X := (Zpos mx * 2 ^ (ex - e))%Z in
      let Y := (Zpos my * 2 ^ (ey - e))%Z in
      let m := Z.ldexp (of_Z (X mod Y)) e in
      if sx then (- m)%float else m
  end.

(** [x % y] on floats, CPython's [float_rem]: the sign follows [y]. *)
Definition py_fmod (x y : float) : float :=
  let m := c_fmod x y in
  if (m =? 0)%float then (if (y <? 0)%float then (- 0)%float else 0%float)
  else if xorb (y <? 0)%float (m <? 0)%float then (m + y)%float
  else m.

(** [math.pi] *)
Definition pi : float := 0x1.921fb54442d18p+1%float.

Definition binary64 (m : Libm) : PyFloat float := {|
  of_int := of_Z;
  int_div := fun a b => (of_Z a / of_Z b)%float;
  fadd := PrimFloat.add;
  fsub := PrimFloat.sub;
  fmul := PrimFloat.mul;
  fdiv := PrimFloat.div;
  fneg := PrimFloat.opp;
  fmod := py_fmod;
  feqb := PrimFloat.eqb;
  fltb := PrimFloat.ltb;
  fleb := PrimFloat.leb;
  fsqrt := PrimFloat.sqrt;
  fsin := libm_sin m;
  fcos := libm_cos m;
  facos := libm_acos m;
  fpi := pi;
  c_half := 0.5%float;
  c_1em3 := 1e-3%float;
  c_1em4 := 1e-4%float
|}.

End B64.

(** ** Collaborators used to run the model on concrete inputs *)

(** Modelled from the spec: Pillow's scan conversion of an ellipse is not in
    the repository; section 4.2 describes the drawable disk as "the
    inscribed circle of the bounding box".  A pixel is filled when its
    centre lies in the closed inscribed ellipse, and it is on the outline
    when it is filled and one of its four neighbours is not. *)
Definition inscribed (b : bbox) (x y : Z) : bool :=
  let '(x0, y0, x1, y1) := b in
  let w := (x1 - x0)%Z in
  let h := (y1 - y0)%Z in
  let u := (2 * x - x0 - x1)%Z in
  let v := (2 * y - y0 - y1)%Z in
  ((x0 <=? x) && (x <=? x1) && (y0 <=? y) && (y <=? y1)
   && (u * u * (h * h) + v * v * (w * w) <=? w * w * (h * h)))%Z.

Definition inscribed_edge (b : bbox) (x y : Z) : bool :=
  inscribed b x y
  && negb (inscribed b (x - 1) y && inscribed b (x + 1) y
           && inscribed b x (y - 1) && inscribed b x (y + 1))%Z.

Definition reference_raster : Rasteriser :=
  {| ellipse_fill := inscribed; ellipse_outline := inscribed_edge |}.

Module Samples.

(** The arguments [math.radians] produces for 90, 180 and 270 degrees. *)
Definition rad90 : float := 1.5707963267948966%float.
Definition rad180 : float := 3.1415926535897931%float.
Definition rad270 : float := 4.7123889803846897%float.

(** The C library is outside the repository.  These are the sine, the
    cosine and the arc cosine, rounded to nearest, at the arguments the
    examples use (the values [math.sin], [math.cos] and [math.acos] print
    there; 0.9999999995535714 is [111.99999995 / 112]); every other
    argument is off the table and gives [nan], so that no example can rest
    on a value that was not tabulated. *)
Definition sin_table (x : float) : float :=
  if (x =? 0)%float then x
  else if (x =? rad90)%float then 1%float
  else if (x =? rad180)%float then 1.2246467991473532e-16%float
  else if (x =? rad270)%float then (-1)%float
  else nan.

Definition cos_table (x : float) : float :=
  if (x =? 0)%float then 1%float
  else if (x =? rad90)%float then 6.123233995736766e-17%float
  else if (x =? rad180)%float then (-1)%float
  else if (x =? rad270)%float then (-1.8369701987210297e-16)%float
  else nan.

Definition acos_table (x : float) : float :=
  if (x =? 1)%float then 0%float
  else if (x =? 0)%float then rad90
  else if (x =? 0.9999999995535714)%float then 2.988071487827782e-05%float
  else nan.

Definition libm : B64.Libm :=
  {| B64.libm_sin := sin_table; B64.libm_cos := cos_table; B64.libm_acos := acos_table |}.

End Samples.


(** The renderer's mask on binary64, with the reference rasteriser and the
    tabulated sines and cosines; and a pixel of a mask that may have raised. *)
Definition render_lit_mask_b64 (phase_deg : float) (size margin : Z) : result (image Z) :=
  @render_lit_mask float (B64.binary64 Samples.libm) reference_raster phase_deg size margin.

Definition mask_at (m : result (image Z)) (x y : Z) : option Z :=
  match m with
  | Ok img => getpixel img x y
  | Raise _ => None
  end.

(** Shapes of a binary64 value: a zero or a nan; nothing above zero;
    nothing below zero. *)
Definition zero_or_nan (x : spec_float) : Prop :=
  match x with
  | S754_zero _ | S754_nan => True
  | _ => False
  end.

Definition not_positive (x : spec_float) : Prop :=
  match x with
  | S754_zero _ | S754_nan | S754_infinity true | S754_finite true _ _ => True
  | _ => False
  end.

Definition not_negative (x : spec_float) : Prop :=
  match x with
  | S754_zero _ | S754_nan | S754_infinity false | S754_finite false _ _ => True
  | _ => False
  end.

(** The overlap area on binary64, with the tabulated arc cosine. *)
Definition circle_overlap_b64 (d r : float) : result float :=
  @circle_overlap_area_equal_r float (B64.binary64 Samples.libm) d r.

(** A pixel of an image that may have raised. *)
Definition image_at (m : result (image rgb)) (x y : Z) : option rgb :=
  match m with
  | Ok img => getpixel img x y
  | Raise _ => None
  end.

(** The icon on binary64, with the reference rasteriser and the tabulated
    sines and cosines, for the settings of the script. *)
Definition render_moon_icon_b64 (phase_deg : float) : result (image rgb) :=
  @render_moon_icon float (B64.binary64 Samples.libm) reference_raster
    0%float true phase_deg SIZE MARGIN.

(** ** Quantities of the analysis over [R] *)

(** The area of the lens is [r * r * segment_angle t] for the half-angle
    [t = acos (d / 2r)]. *)
Definition segment_angle (t : R) : R := (2 * t - 2 * sin t * cos t)%R.

Definition chord_slack (t : R) : R := (segment_angle t + 4 * cos t)%R.



(** ** The export stage: file names, the almanac and the files written

    The second half of [main.py] (lines 139-200) talks to the outside world:
    it asks [astronomy-engine] for the phase of the moon, writes JPEG files
    and prints a line per file.  A run of it is the list of the effects it
    performed, in order, with the way it ended.  Paths are joined as on a
    POSIX system; a file system that refuses a directory or a file is
    outside the model. *)

Module IconFiles.

Import Ascii String.
Local Open Scope string_scope.

(** [str(n)] of an int. *)
Definition py_str (n : Z) : string := DecimalString.NilZero.string_of_int (Z.to_int n).

(** [f"{n:02d}"]: sign-aware zero padding to a width of 2. *)
Definition format_02d (n : Z) : string :=
  if (n <? 0)%Z then py_str n
  else if (String.length (py_str n) <? 2)%nat then "0" ++ py_str n
  else py_str n.

(** [s.endswith("/")] *)
Fixpoint ends_with_sep (s : string) : bool :=
  match s with
  | EmptyString => false
  | String c EmptyString => Ascii.eqb c "/"
  | String _ rest => ends_with_sep rest
  end.

(** [os.path.join(a, b)] of [posixpath], for two components. *)
Definition os_path_join (a b : string) : string :=
  if String.prefix "/" b then b
  else if (String.length a =? 0)%nat || ends_with_sep a then a ++ b
  else a ++ "/" ++ b.

(** The path of line 179. *)
Definition icon_path (outdir : string) (age : Z) : string :=
  os_path_join outdir ("moon_" ++ format_02d age ++ ".jpg").

(** Settings, lines 27-28. *)
Definition DAYS : Z := 30.
Definition OUTDIR : string := "./out".

(** What [astronomy-engine] offers the script.  The library is a
    dependency; its results are left open.  [SearchMoonPhase] answers
    [None] when it finds no such phase within the limit. *)
Record IlluminationInfo (T F : Type) : Type := {
  time : T;
  phase_fraction : F
}.

Arguments time {T F} _.
Arguments phase_fraction {T F} _.

Record Astronomy (F : Type) : Type := {
  Time : Type;
  Time_Make : Z -> Z -> Z -> Z -> Z -> Z -> Time;
  AddDays : Time -> F -> Time;
  SearchMoonPhase : F -> Time -> F -> option Time;
  Illumination_Moon : Time -> IlluminationInfo Time F;
  MoonPhase : Time -> F
}.

Arguments Time {F} _.
Arguments Time_Make {F} _ _ _ _ _ _ _.
Arguments AddDays {F} _ _ _.
Arguments SearchMoonPhase {F} _ _ _ _.
Arguments Illumination_Moon {F} _ _.
Arguments MoonPhase {F} _ _.

(** Exceptions of the export stage: those of the kernel, and the
    [AttributeError] of a method called on [None]. *)
Inductive script_exn : Type :=
| Kernel (e : exn)
| AttributeError.

Inductive outcome (A : Type) : Type :=
| Returned (a : A)
| Raised (e : script_exn).

Arguments Returned {A} a.
Arguments Raised {A} e.

(** The effects of the script. *)
Inductive event : Type :=
| MakeDirs (path : string) (exist_ok : bool)
| SaveJPEG (path : string) (img : image rgb) (quality : Z) (optimize progressive : bool)
| Print (line : string).

(** A run: the effects performed before it ended, and how it ended. *)
Definition run (A : Type) : Type := (list event * outcome A)%type.

Definition ret {A : Type} (a : A) : run A := ([], Returned a).

Definition emit (e : event) : run unit := ([e], Returned tt).

Definition and_then {A B : Type} (m : run A) (k : A -> run B) : run B :=
  match m with
  | (log, Returned a) => let '(log', o) := k a in (log ++ log', o)%list
  | (log, Raised e) => (log, Raised e)
  end.

Definition of_result {A : Type} (r : result A) : run A :=
  match r with
  | Ok a => ret a
  | Raise e => ([], Raised (Kernel e))
  end.

Definition of_outcome {A : Type} (o : outcome A) : run A := ([], o).

(** [for x in l: body(x)] *)
Fixpoint for_run {A : Type} (body : A -> run unit) (l : list A) : run unit :=
  match l with
  | [] => ret tt
  | x :: xs => and_then (body x) (fun _ => for_run body xs)
  end.

Section Script.

Context {F : Type} `{PyFloat F}.
Variable P : Rasteriser.
Variable astro : Astronomy F.

(** Line 31. *)
Definition REFERENCE_START : Time astro := Time_Make astro 2000 1 1 0 0 0.

(** [base_new_moon()], lines 139-146.  The [lru_cache] only saves the
    repeated search: the value is the same at every call. *)
Definition base_new_moon : option (Time astro) :=
  SearchMoonPhase astro (of_int 0) REFERENCE_START (of_int 40).

(** [fraction_and_waxing_at_age(age_days, base)], lines 149-159. *)
Definition fraction_and_waxing_at_age (age_days : Z) (base : option (Time astro))
    : outcome (F * bool * F) :=
  match base with
  | None => Raised AttributeError
  | Some b =>
      let ill := Illumination_Moon astro (AddDays astro b (of_int age_days)) in
      let fraction := phase_fraction ill in
      let phase_deg := MoonPhase astro (time ill) in
      let waxing := fltb phase_deg (of_int 180) in
      Returned (fraction, waxing, phase_deg)
  end.

(** [save_icon(age, outdir, size)], lines 162-187; the margin is the
    default [MARGIN] of [render_moon_icon]. *)
Definition save_icon (age : Z) (outdir : string) (size : Z) : run unit :=
  and_then (of_outcome (fraction_and_waxing_at_age age base_new_moon)) (fun fwp =>
  let '(fraction, waxing, phase_deg) := fwp in
  and_then (of_result (render_moon_icon P fraction waxing phase_deg size MARGIN)) (fun img =>
  let path := icon_path outdir age in
  and_then (emit (SaveJPEG path img 92 true true)) (fun _ =>
  emit (Print ("saved: " ++ path))))).

(** [save_all_icons(days, outdir, size)], lines 190-196. *)
Definition save_all_icons (days : Z) (outdir : string) (size : Z) : run unit :=
  and_then (emit (MakeDirs outdir true)) (fun _ =>
  for_run (fun age => save_icon age outdir size) (range days)).

(** Line 200: the script run as a program. *)
Definition main : run unit := save_all_icons DAYS OUTDIR SIZE.

End Script.

(** The effects of one [save_icon] that went through, lines 180-187. *)
Definition icon_events (outdir : string) (age : Z) (img : image rgb) : list event :=
  [SaveJPEG (icon_path outdir age) img 92 true true;
   Print ("saved: " ++ icon_path outdir age)].

(** The files a run wrote, in order. *)
Fixpoint saved_paths (log : list event) : list string :=
  match log with
  | [] => []
  | SaveJPEG path _ _ _ _ :: rest => path :: saved_paths rest
  | _ :: rest => saved_paths rest
  end.

End IconFiles.

(** An almanac to run the export stage on: time is a number of days, the
    search finds its starting point, and the moon gains 90 degrees a day. *)
Definition toy_almanac : IconFiles.Astronomy float := {|
  IconFiles.Time := float;
  IconFiles.Time_Make := fun _ _ _ _ _ _ => 0%float;
  IconFiles.AddDays := fun t d => (t + d)%float;
  IconFiles.SearchMoonPhase := fun _ start _ => Some start;
  IconFiles.Illumination_Moon :=
    fun t => {| IconFiles.time := t; IconFiles.phase_fraction := 0.5%float |};
  IconFiles.MoonPhase := fun t => B64.py_fmod (t * 90)%float 360%float
|}.

(** * Facts *)

(** ** Loops and images *)

Lemma for_each_ok {A B : Type} (f : A -> result B) (g : A -> B) (l : list A) :
  (forall x, In x l -> f x = Ok (g x)) -> for_each f l = Ok (map g l).
Proof.
  induction l as [|x xs IH]; intros Hf; simpl.
  - reflexivity.
  - rewrite (Hf x (or_introl eq_refl)); simpl.
    rewrite IH by (intros y Hy; apply Hf; right; exact Hy).
    reflexivity.
Qed.

Lemma range_length (n : Z) : length (range n) = Z.to_nat n.
Proof. unfold range; rewrite length_map, length_seq; reflexivity. Qed.

Lemma range_nth (n i : Z) :
  (0 <= i < n)%Z -> nth_error (range n) (Z.to_nat i) = Some i.
Proof.
  intros Hi; unfold range.
  rewrite nth_error_map, nth_error_seq.
  assert (Hlt : (Z.to_nat i <? Z.to_nat n)%nat = true) by (apply Nat.ltb_lt; lia).
  rewrite Hlt; simpl; f_equal; lia.
Qed.

Lemma range_in (n i : Z) : In i (range n) -> (0 <= i < n)%Z.
Proof.
  unfold range; rewrite in_map_iff; intros [k [<- Hk]].
  apply in_seq in Hk; lia.
Qed.

(** A grid built row by row from a function of the coordinates. *)
Lemma getpixel_grid {A : Type} (g : Z -> Z -> A) (n x y : Z) :
  (0 <= x < n)%Z -> (0 <= y < n)%Z ->
  getpixel (map (fun py => map (fun px => g px py) (range n)) (range n)) x y
  = Some (g x y).
Proof.
  intros Hx Hy; unfold getpixel.
  replace ((x <? 0)%Z || (y <? 0)%Z) with false
    by (symmetry; apply orb_false_iff; split; apply Z.ltb_ge; lia).
  rewrite nth_error_map, (range_nth n y Hy); simpl.
  rewrite nth_error_map, (range_nth n x Hx); reflexivity.
Qed.

Lemma getpixel_new {A : Type} (c : A) (n x y : Z) :
  (0 <= x < n)%Z -> (0 <= y < n)%Z ->
  getpixel (repeat (repeat c (Z.to_nat n)) (Z.to_nat n)) x y = Some c.
Proof.
  intros Hx Hy; unfold getpixel.
  replace ((x <? 0)%Z || (y <? 0)%Z) with false
    by (symmetry; apply orb_false_iff; split; apply Z.ltb_ge; lia).
  rewrite (nth_error_repeat (repeat c (Z.to_nat n))) by lia.
  rewrite (nth_error_repeat c) by lia.
  reflexivity.
Qed.

Lemma imap_row_nth {A B : Type} (f : Z -> A -> B) (row : list A) (x0 : Z) (k : nat) :
  nth_error (imap_row f x0 row) k
  = option_map (f (x0 + Z.of_nat k)%Z) (nth_error row k).
Proof.
  revert x0 k; induction row as [|p ps IH]; intros x0 k.
  - destruct k; reflexivity.
  - destruct k as [|k]; simpl.
    + rewrite Z.add_0_r; reflexivity.
    + rewrite IH; do 2 f_equal; lia.
Qed.

Lemma imap_rows_nth {A B : Type} (f : Z -> Z -> A -> B) (img : image A) (y0 : Z) (k : nat) :
  nth_error (imap_rows f y0 img) k
  = option_map (imap_row (fun x p => f x (y0 + Z.of_nat k)%Z p) 0%Z) (nth_error img k).
Proof.
  revert y0 k; induction img as [|row rows IH]; intros y0 k.
  - destruct k; reflexivity.
  - destruct k as [|k]; simpl.
    + rewrite Z.add_0_r; reflexivity.
    + rewrite IH.
      replace (y0 + 1 + Z.of_nat k)%Z with (y0 + Z.pos (Pos.of_succ_nat k))%Z by lia.
      reflexivity.
Qed.

Lemma getpixel_imap {A B : Type} (f : Z -> Z -> A -> B) (img : image A) (x y : Z) :
  getpixel (imap f img) x y = option_map (f x y) (getpixel img x y).
Proof.
  unfold getpixel, imap.
  destruct ((x <? 0)%Z || (y <? 0)%Z) eqn:E; [reflexivity|].
  apply orb_false_iff in E; destruct E as [Ex Ey].
  apply Z.ltb_ge in Ex, Ey.
  rewrite imap_rows_nth.
  destruct (nth_error img (Z.to_nat y)) as [row|]; simpl; [|reflexivity].
  rewrite imap_row_nth.
  rewrite !Z.add_0_l, !Z2Nat.id by lia.
  reflexivity.
Qed.

Lemma map2_nth {A B C : Type} (f : A -> B -> C) (l1 : list A) (l2 : list B) (k : nat) :
  nth_error (map2 f l1 l2) k
  = match nth_error l1 k, nth_error l2 k with
    | Some a, Some b => Some (f a b)
    | _, _ => None
    end.
Proof.
  revert l2 k; induction l1 as [|a l1 IH]; intros l2 k.
  - destruct k; reflexivity.
  - destruct l2 as [|b l2].
    + destruct k; simpl; [reflexivity|].
      destruct (nth_error l1 k); reflexivity.
    + destruct k; simpl; [reflexivity|apply IH].
Qed.

Lemma getpixel_map2 {A B C : Type} (f : A -> B -> C) (a : image A) (b : image B) (x y : Z) :
  getpixel (map2 (map2 f) a b) x y
  = match getpixel a x y, getpixel b x y with
    | Some p, Some q => Some (f p q)
    | _, _ => None
    end.
Proof.
  unfold getpixel.
  destruct ((x <? 0)%Z || (y <? 0)%Z); [reflexivity|].
  rewrite map2_nth.
  destruct (nth_error a (Z.to_nat y)) as [ra|], (nth_error b (Z.to_nat y)) as [rb|];
    try reflexivity.
  - apply map2_nth.
  - destruct (nth_error ra (Z.to_nat x)); reflexivity.
Qed.

Lemma getpixel_map {A B : Type} (f : A -> B) (img : image A) (x y : Z) :
  getpixel (map (map f) img) x y = option_map f (getpixel img x y).
Proof.
  unfold getpixel.
  destruct ((x <? 0)%Z || (y <? 0)%Z); [reflexivity|].
  rewrite nth_error_map.
  destruct (nth_error img (Z.to_nat y)) as [row|]; simpl; [|reflexivity].
  apply nth_error_map.
Qed.

Lemma getpixel_grid_iff {A : Type} (g : Z -> Z -> A) (n x y : Z) (a : A) :
  getpixel (map (fun py => map (fun px => g px py) (range n)) (range n)) x y = Some a
  <-> (0 <= x < n)%Z /\ (0 <= y < n)%Z /\ g x y = a.
Proof.
  split.
  - unfold getpixel.
    destruct ((x <? 0)%Z || (y <? 0)%Z) eqn:E; [discriminate|].
    apply orb_false_iff in E; destruct E as [Ex Ey]; apply Z.ltb_ge in Ex, Ey.
    destruct (nth_error _ (Z.to_nat y)) as [row|] eqn:Er; [|discriminate].
    intros Hrow.
    assert (Hy : (Z.to_nat y < length (range n))%nat).
    { rewrite <- (length_map (fun py => map (fun px => g px py) (range n))).
      apply nth_error_Some; rewrite Er; discriminate. }
    rewrite range_length in Hy.
    rewrite nth_error_map, (range_nth n y) in Er by lia.
    injection Er as <-.
    assert (Hx : (Z.to_nat x < length (range n))%nat).
    { rewrite <- (length_map (fun px => g px y)).
      apply nth_error_Some; rewrite Hrow; discriminate. }
    rewrite range_length in Hx.
    rewrite nth_error_map, (range_nth n x) in Hrow by lia.
    injection Hrow as <-.
    repeat split; lia.
  - intros [Hx [Hy <-]]; apply getpixel_grid; assumption.
Qed.


(** ** The renderer *)

Local Open Scope Z_scope.

Lemma radius_center (size margin : Z) : radius_of size margin = center_of size - margin.
Proof.
  unfold radius_of, center_of.
  replace (size - 2 * margin) with (size + (- margin) * 2) by lia.
  rewrite Z.div_add by lia; lia.
Qed.

Lemma radius_pos (size margin : Z) :
  2 * margin + 2 <= size -> 1 <= radius_of size margin.
Proof.
  intros Hs; unfold radius_of.
  apply Z.div_le_lower_bound; lia.
Qed.

Lemma center_double (size : Z) : size - 1 <= 2 * center_of size <= size.
Proof.
  unfold center_of.
  pose proof (Z.div_mod size 2 ltac:(lia)).
  pose proof (Z.mod_pos_bound size 2 ltac:(lia)); lia.
Qed.

(** C4, as amended: twice the radius plus twice the margin is the size
    rounded down to an even number; it is the size itself exactly when the
    size is even, and one less when it is odd. *)
Theorem disk_geometry_sum (size margin : Z) :
  2 * radius_of size margin + 2 * margin = size - size mod 2
  /\ (Z.even size = true -> 2 * radius_of size margin + 2 * margin = size)
  /\ (Z.odd size = true -> 2 * radius_of size margin + 2 * margin = size - 1).
Proof.
  rewrite radius_center; unfold center_of.
  pose proof (Z.div_mod size 2 ltac:(lia)) as E.
  split; [lia|split]; intros P.
  - rewrite Zmod_even, P in E; lia.
  - rewrite Zmod_odd, P in E; lia.
Qed.

(** C4, as stated, fails for an odd size: with size 129 and margin 8 (both
    positive, size > 2 * margin) the radius is 56 and the sum is 128. *)
Lemma disk_geometry_sum_odd_size :
  0 < 129 /\ 0 < 8 /\ 129 > 2 * 8
  /\ 2 * radius_of 129 8 + 2 * 8 <> 129.
Proof.
  split; [lia|]; split; [lia|]; split; [lia|].
  vm_compute; discriminate.
Qed.

Lemma Image_new_ok {A : Type} (size : Z) (c : A) :
  0 <= size -> Image_new size c = Ok (repeat (repeat c (Z.to_nat size)) (Z.to_nat size)).
Proof.
  intros Hs; unfold Image_new.
  replace (size <? 0) with false by (symmetry; apply Z.ltb_ge; exact Hs).
  reflexivity.
Qed.

Lemma moon_mask_pixel (P : Rasteriser) (b : bbox) (size x y : Z) :
  0 <= x < size -> 0 <= y < size ->
  getpixel (draw_ellipse_fill P b 255 (repeat (repeat 0 (Z.to_nat size)) (Z.to_nat size))) x y
  = Some (if ellipse_fill P b x y then 255 else 0).
Proof.
  intros Hx Hy; unfold draw_ellipse_fill.
  rewrite getpixel_imap, getpixel_new by assumption; reflexivity.
Qed.

Section RenderFacts.

Context {F : Type} `{PyFloat F}.

(** The image is the composite of the layers, pixel by pixel, whenever
    the loops over the mask end without an exception. *)
Lemma render_pixel (P : Rasteriser) (fraction : F) (waxing : bool) (phase_deg : F)
    (size margin : Z) (mask : image Z) :
  render_lit_mask P phase_deg size margin = Ok mask ->
  exists img,
    render_moon_icon P fraction waxing phase_deg size margin = Ok img
    /\ forall x y v,
        0 <= x < size -> 0 <= y < size -> getpixel mask x y = Some v ->
        getpixel img x y
        = Some (composite_pixel (ellipse_fill P (bbox_of size margin) x y)
                  (ellipse_outline P (bbox_of size margin) x y) v).
Proof.
  unfold render_lit_mask, render_moon_icon.
  destruct (Z.ltb_spec size 0) as [Hneg | Hs].
  - unfold Image_new; replace (size <? 0) with true by (symmetry; apply Z.ltb_lt; exact Hneg).
    discriminate.
  - rewrite !Image_new_ok by exact Hs; cbn [bind].
    intros ->; cbn [bind].
    eexists; split; [reflexivity|].
    intros x y v Hx Hy Hv.
    unfold convert_RGB, alpha_composite, putalpha, draw_ellipse_fill, draw_ellipse_outline.
    rewrite getpixel_map, !getpixel_map2, !getpixel_imap, !getpixel_new, Hv by assumption.
    cbn [option_map]; unfold composite_pixel.
    destruct (ellipse_fill P (bbox_of size margin) x y),
             (ellipse_outline P (bbox_of size margin) x y); reflexivity.
Qed.

(** C9: the image [render_moon_icon] returns is the same whatever the
    [fraction] and [waxing] arguments are; it depends on the phase angle,
    the size and the margin only. *)
Theorem render_ignores_fraction_and_waxing (P : Rasteriser) (f1 f2 : F) (w1 w2 : bool)
    (phase_deg : F) (size margin : Z) :
  render_moon_icon P f1 w1 phase_deg size margin
  = render_moon_icon P f2 w2 phase_deg size margin.
Proof. reflexivity. Qed.

(** In any arithmetic where [x <= y] failing makes [x < y] fail (exact
    reals and binary64 alike), the loops raise only for a radius of 0, and
    the mask they leave is [lit_grid]. *)
Hypothesis fleb_false_fltb : forall x y : F, fleb x y = false -> fltb x y = false.

Lemma lit_pixel_value (mask : image Z) (sun : F * F * F) (cx r : Z) (dy : F) (py px m : Z) :
  r <> 0 -> getpixel mask px py = Some m ->
  lit_pixel mask sun cx r dy py px = Ok (mask_value m sun (int_div (px - cx) r) dy).
Proof.
  intros Hr Hm; unfold lit_pixel, mask_value; rewrite Hm.
  destruct (m =? 0); [reflexivity|].
  unfold py_int_truediv.
  replace (r =? 0) with false by (symmetry; apply Z.eqb_neq; exact Hr).
  cbn [bind].
  destruct (fleb _ (of_int 0)) eqn:E; [reflexivity|].
  unfold math_sqrt; rewrite (fleb_false_fltb _ _ E); cbn [bind].
  destruct (fltb (of_int 0) _); reflexivity.
Qed.

Lemma lit_loops_value (mask : image Z) (mv : Z -> Z -> Z) (sun : F * F * F) (size cx cy r : Z) :
  r <> 0 ->
  (forall x y, 0 <= x < size -> 0 <= y < size -> getpixel mask x y = Some (mv x y)) ->
  lit_loops mask sun size cx cy r
  = Ok (map (fun py =>
          map (fun px => mask_value (mv px py) sun (int_div (px - cx) r) (int_div (py - cy) r))
            (range size))
          (range size)).
Proof.
  intros Hr Hmask; unfold lit_loops.
  apply for_each_ok; intros py Hpy; apply range_in in Hpy.
  unfold py_int_truediv.
  replace (r =? 0) with false by (symmetry; apply Z.eqb_neq; exact Hr).
  cbn [bind].
  apply for_each_ok; intros px Hpx; apply range_in in Hpx.
  apply lit_pixel_value; [exact Hr | apply Hmask; assumption].
Qed.

Lemma render_lit_mask_value (P : Rasteriser) (phase_deg : F) (size margin : Z) :
  0 <= size -> radius_of size margin <> 0 ->
  render_lit_mask P phase_deg size margin = Ok (lit_grid P phase_deg size margin).
Proof.
  intros Hs Hr; unfold render_lit_mask.
  rewrite Image_new_ok by exact Hs; cbn [bind].
  apply (lit_loops_value _ (fun x y => if ellipse_fill P (bbox_of size margin) x y then 255 else 0)).
  - exact Hr.
  - intros x y Hx Hy; apply moon_mask_pixel; assumption.
Qed.

(** A phase at which no dot product is above zero leaves the mask empty
    and the whole disk in the shadow colour. *)
Lemma dark_phase_is_shadow (P : Rasteriser) (fraction : F) (waxing : bool) (dark : F)
    (size margin : Z) :
  (forall m dx dy, mask_value m (sun_dir dark) dx dy = 0) ->
  0 <= size -> 2 * margin + 2 <= size ->
  exists mask img,
    render_lit_mask P dark size margin = Ok mask
    /\ render_moon_icon P fraction waxing dark size margin = Ok img
    /\ forall x y,
        0 <= x < size -> 0 <= y < size ->
        getpixel mask x y = Some 0
        /\ (ellipse_fill P (bbox_of size margin) x y = true ->
            getpixel img x y = Some SHADOW /\ SHADOW <> MOON).
Proof.
  intros Hdark Hs Hm.
  pose proof (radius_pos size margin Hm) as Hr.
  assert (Hmask : render_lit_mask P dark size margin = Ok (lit_grid P dark size margin))
    by (apply render_lit_mask_value; lia).
  destruct (render_pixel P fraction waxing dark size margin _ Hmask) as [img [Himg Hpix]].
  exists (lit_grid P dark size margin), img.
  split; [exact Hmask|]. split; [exact Himg|].
  intros x y Hx Hy.
  assert (Hv : getpixel (lit_grid P dark size margin) x y = Some 0).
  { unfold lit_grid; rewrite getpixel_grid by assumption.
    rewrite Hdark; reflexivity. }
  split; [exact Hv|].
  intros Hfill; rewrite (Hpix x y 0 Hx Hy Hv), Hfill.
  split; [|discriminate].
  destruct (ellipse_outline P (bbox_of size margin) x y); reflexivity.
Qed.

End RenderFacts.

(** ** binary64: the facts about IEEE arithmetic the renderer needs *)

Lemma b64_leb_false_ltb (x y : float) :
  (x <=? y)%float = false -> (x <? y)%float = false.
Proof.
  rewrite leb_spec, ltb_spec; unfold SFleb, SFltb.
  destruct (SFcompare (Prim2SF x) (Prim2SF y)) as [[| |]|]; congruence.
Qed.

Lemma round_aux_sign (s : bool) (m e : Z) (l : location) :
  if s then not_positive (binary_round_aux prec emax s m e l)
  else not_negative (binary_round_aux prec emax s m e l).
Proof.
  unfold binary_round_aux.
  destruct (shr_fexp prec emax m e l) as [mrs e'].
  destruct (shr_fexp prec emax _ e' loc_Exact) as [mrs' e''].
  destruct (shr_m mrs') as [|p|p]; destruct s; simpl; try exact I;
    match goal with |- context [if ?c then _ else _] => destruct c end; exact I.
Qed.

Lemma mul_zero_shape (x : spec_float) : zero_or_nan (SF64mul x (S754_zero false)).
Proof. destruct x as [s| s| |s m e]; simpl; exact I. Qed.

Lemma sqrt_shape (x : spec_float) : not_negative (SF64sqrt x).
Proof.
  destruct x as [s|[|]| |[|] m e]; simpl; try exact I.
  destruct (SFsqrt_core_binary prec emax (Z.pos m) e) as [[mz ez] lz].
  apply (round_aux_sign false).
Qed.

Lemma mul_minus_one_shape (x : spec_float) :
  not_negative x -> not_positive (SF64mul x (Prim2SF (-1)%float)).
Proof.
  destruct x as [s|[|]| |[|] m e]; simpl; intros Hx; try exact I; try contradiction.
  apply (round_aux_sign true).
Qed.

Lemma add_zero_shape (x y : spec_float) :
  zero_or_nan x -> zero_or_nan y -> zero_or_nan (SF64add x y).
Proof.
  destruct x as [[|]| | |sx mx ex]; destruct y as [[|]| | |sy my ey]; simpl; intros Hx Hy;
    try exact I; contradiction.
Qed.

Lemma add_not_positive_shape (x y : spec_float) :
  zero_or_nan x -> not_positive y -> not_positive (SF64add x y).
Proof.
  destruct x as [[|]| | |sx mx ex]; destruct y as [[|]|[|]| |[|] my ey]; simpl; intros Hx Hy;
    try exact I; contradiction.
Qed.

Lemma ltb_zero_not_positive (y : spec_float) :
  not_positive y -> SFltb (S754_zero false) y = false.
Proof.
  destruct y as [s|[|]| |[|] m e]; simpl; intros Hy; try reflexivity; contradiction.
Qed.

(** With the sun direction [(0, 0, -1)] no dot product is above zero,
    whatever the normal. *)
Lemma b64_new_moon_dot (dx dy nz_sq : float) :
  (0 <? dx * 0 + dy * 0 + PrimFloat.sqrt nz_sq * (-1))%float = false.
Proof.
  rewrite ltb_spec, !add_spec, !mul_spec, sqrt_spec.
  change (Prim2SF 0%float) with (S754_zero false).
  apply ltb_zero_not_positive, add_not_positive_shape.
  - apply add_zero_shape; apply mul_zero_shape.
  - apply mul_minus_one_shape, sqrt_shape.
Qed.

Lemma render_lit_mask_binary64 (m : B64.Libm) (P : Rasteriser) (phase_deg : float)
    (size margin : Z) :
  0 <= size -> 2 * margin + 2 <= size ->
  @render_lit_mask float (B64.binary64 m) P phase_deg size margin
  = Ok (@lit_grid float (B64.binary64 m) P phase_deg size margin).
Proof.
  intros Hs Hm; pose proof (radius_pos size margin Hm).
  apply (@render_lit_mask_value float (B64.binary64 m) b64_leb_false_ltb); lia.
Qed.

(** [mask_value] on binary64, with its comparisons spelled out. *)
Lemma mask_value_binary64 (m : B64.Libm) (v : Z) (s0 s1 s2 dx dy : float) :
  @mask_value float (B64.binary64 m) v (s0, s1, s2) dx dy
  = if v =? 0 then 0
    else if (1 - dx * dx - dy * dy <=? 0)%float then 0
    else if (0 <? dx * s0 + dy * s1 + PrimFloat.sqrt (1 - dx * dx - dy * dy) * s2)%float then 255
    else 0.
Proof. reflexivity. Qed.

Lemma sun_dir_binary64 (m : B64.Libm) (phase_deg : float) :
  @sun_dir float (B64.binary64 m) phase_deg
  = (B64.libm_sin m (B64.py_fmod phase_deg 360 * (B64.pi / 180)), 0,
     - B64.libm_cos m (B64.py_fmod phase_deg 360 * (B64.pi / 180)))%float.
Proof. reflexivity. Qed.

(** C1, as amended: on binary64, whatever the C library's sine and cosine
    and whatever the rasteriser, for every phase angle and every size and
    margin with [size >= 2 * margin + 2] (a radius of at least 1), the
    loops of [render_moon_icon] end without an exception and mark the
    pixel [(px, py)] of the image lit (255) if and only if it is in the
    disk mask, the test [nz_sq <= 0] fails for
    [nz_sq = 1 - nx * nx - ny * ny], [nx = (px - cx) / r],
    [ny = (py - cy) / r], and the dot product of [(nx, ny, sqrt nz_sq)]
    with the sun direction [(sin theta, 0, - cos theta)],
    [theta = radians (phase_deg % 360)], is above 0; every other pixel is
    unlit (0). *)
Theorem lit_pixel_iff (m : B64.Libm) (P : Rasteriser) (phase_deg : float)
    (size margin px py : Z) :
  2 * margin + 2 <= size -> 0 <= px < size -> 0 <= py < size ->
  let cx := center_of size in
  let cy := cx in
  let r := radius_of size margin in
  let nx := (B64.of_Z (px - cx) / B64.of_Z r)%float in
  let ny := (B64.of_Z (py - cy) / B64.of_Z r)%float in
  let nz_sq := (1 - nx * nx - ny * ny)%float in
  let theta := (B64.py_fmod phase_deg 360 * (B64.pi / 180))%float in
  exists mask v,
    @render_lit_mask float (B64.binary64 m) P phase_deg size margin = Ok mask
    /\ getpixel mask px py = Some v
    /\ (v = 255 \/ v = 0)
    /\ (v = 255 <->
        ellipse_fill P (bbox_of size margin) px py = true
        /\ (nz_sq <=? 0)%float = false
        /\ (0 <? nx * B64.libm_sin m theta + ny * 0
                 + PrimFloat.sqrt nz_sq * - B64.libm_cos m theta)%float = true).
Proof.
  intros Hs Hpx Hpy cx cy r nx ny nz_sq theta; subst cy.
  eexists; eexists; split; [apply render_lit_mask_binary64; lia|].
  split; [apply getpixel_grid; assumption|].
  rewrite sun_dir_binary64, mask_value_binary64.
  change (@int_div float (B64.binary64 m) (px - center_of size) (radius_of size margin)) with nx.
  change (@int_div float (B64.binary64 m) (py - center_of size) (radius_of size margin)) with ny.
  fold nz_sq theta.
  destruct (ellipse_fill P (bbox_of size margin) px py); cbn [Z.eqb].
  - destruct (nz_sq <=? 0)%float.
    + split; [right; reflexivity|]. split; [discriminate|]. intros [_ [Hn _]]; discriminate.
    + destruct (0 <? nx * B64.libm_sin m theta + ny * 0
                     + PrimFloat.sqrt nz_sq * - B64.libm_cos m theta)%float.
      * split; [left; reflexivity|]. split; [|reflexivity]. intros _; repeat split.
      * split; [right; reflexivity|]. split; [discriminate|]. intros [_ [_ Hn]]; discriminate.
  - split; [right; reflexivity|]. split; [discriminate|]. intros [Hf _]; discriminate.
Qed.

(** C1, as stated, fails for [size = 2 * margin + 1]: with size 1 and
    margin 0 the radius is 0 and line 114 raises [ZeroDivisionError], so
    no pixel is marked either way. *)
Lemma lit_mask_raises_on_zero_radius :
  1 > 2 * 0
  /\ render_lit_mask_b64 0%float 1 0 = Raise ZeroDivisionError.
Proof. split; [lia | vm_compute; reflexivity]. Qed.

Lemma sun_dir_new_moon_binary64 (m : B64.Libm) :
  B64.libm_sin m 0%float = 0%float -> B64.libm_cos m 0%float = 1%float ->
  @sun_dir float (B64.binary64 m) 0%float = (0, 0, -1)%float.
Proof.
  intros Hsin Hcos; rewrite sun_dir_binary64.
  replace (B64.py_fmod 0 360 * (B64.pi / 180))%float with 0%float
    by (vm_compute; reflexivity).
  rewrite Hsin, Hcos; reflexivity.
Qed.

(** C2: on binary64, for a C library with [sin 0 = 0] and [cos 0 = 1], at
    phase angle 0 no pixel of the mask is lit, and every pixel of the disk
    (outline stroke or not) comes out in the shadow colour, which is not
    the moon colour; so does pixel (64, 64) for size 128 and margin 8
    whenever the ellipse fill covers the centre of its box, as the witness
    checks for the reference rasteriser. *)
Theorem new_moon_is_shadow (m : B64.Libm) (P : Rasteriser) (fraction : float)
    (waxing : bool) (size margin : Z) :
  B64.libm_sin m 0%float = 0%float -> B64.libm_cos m 0%float = 1%float ->
  0 <= size -> 2 * margin + 2 <= size ->
  exists mask img,
    @render_lit_mask float (B64.binary64 m) P 0%float size margin = Ok mask
    /\ @render_moon_icon float (B64.binary64 m) P fraction waxing 0%float size margin = Ok img
    /\ forall x y,
        0 <= x < size -> 0 <= y < size ->
        getpixel mask x y = Some 0
        /\ (ellipse_fill P (bbox_of size margin) x y = true ->
            getpixel img x y = Some SHADOW /\ SHADOW <> MOON).
Proof.
  intros Hsin Hcos Hs Hm.
  apply (@dark_phase_is_shadow float (B64.binary64 m) b64_leb_false_ltb); try assumption.
  intros v dx dy.
  rewrite (sun_dir_new_moon_binary64 m Hsin Hcos), mask_value_binary64.
  rewrite b64_new_moon_dot.
  destruct (v =? 0); [reflexivity|].
  destruct (1 - dx * dx - dy * dy <=? 0)%float; reflexivity.
Qed.

(** ** Comparisons and division over the reals *)

Local Open Scope R_scope.

Lemma Rleb_true (x y : R) : Rleb x y = true <-> x <= y.
Proof. unfold Rleb; destruct (Rle_dec x y); split; intros; try easy. Qed.

Lemma Rleb_false (x y : R) : Rleb x y = false <-> y < x.
Proof. unfold Rleb; destruct (Rle_dec x y); split; intros; try easy; lra. Qed.


Lemma Rltb_false (x y : R) : Rltb x y = false <-> y <= x.
Proof. unfold Rltb; destruct (Rlt_dec x y); split; intros; try easy; lra. Qed.

Lemma Reqb_true (x y : R) : Reqb x y = true <-> x = y.
Proof. unfold Reqb; destruct (Req_dec_T x y); split; intros; try easy. Qed.

Lemma Reqb_false (x y : R) : Reqb x y = false <-> x <> y.
Proof. unfold Reqb; destruct (Req_dec_T x y); split; intros; try easy. Qed.


Lemma py_div_R (x y : R) : y <> 0 -> py_div x y = Ok (x / y).
Proof.
  intros Hy; unfold py_div; cbn.
  apply Reqb_false in Hy; rewrite Hy; reflexivity.
Qed.

Lemma math_sqrt_R (x : R) : 0 <= x -> math_sqrt x = Ok (sqrt x).
Proof.
  intros Hx; unfold math_sqrt; cbn.
  replace (Rltb x 0) with false by (symmetry; apply Rltb_false; exact Hx).
  reflexivity.
Qed.

Lemma math_acos_R (x : R) : -1 <= x <= 1 -> math_acos x = Ok (acos x).
Proof.
  intros [Hl Hu]; unfold math_acos; cbn.
  replace (Rltb x (Ropp 1)) with false by (symmetry; apply Rltb_false; lra).
  replace (Rltb 1 x) with false by (symmetry; apply Rltb_false; lra).
  reflexivity.
Qed.


Lemma Rdiv_ge_bound (a b c : R) : 0 < c -> b * c <= a -> b <= a / c.
Proof.
  intros Hc H; apply (Rmult_le_reg_r c); [exact Hc|].
  unfold Rdiv; rewrite Rmult_assoc, Rinv_l by lra; lra.
Qed.

(** ** PhaseGeometry over the reals *)

Lemma overlap_R_nonpos (d r : R) :
  d <= 0 -> circle_overlap_area_equal_r d r = Ok (PI * r * r).
Proof.
  intros Hd; unfold circle_overlap_area_equal_r; cbn.
  apply Rleb_true in Hd; rewrite Hd; reflexivity.
Qed.

Lemma overlap_R_far (d r : R) :
  0 < r -> 2 * r <= d -> circle_overlap_area_equal_r d r = Ok 0.
Proof.
  intros Hr Hd; unfold circle_overlap_area_equal_r; cbn.
  replace (Rleb d 0) with false by (symmetry; apply Rleb_false; lra).
  apply Rleb_true in Hd; rewrite Hd; reflexivity.
Qed.

Lemma lens_radicand (d r : R) :
  0 < r -> 0 <= d <= 2 * r -> 0 <= 4 * r * r - d * d.
Proof. intros Hr [Hd0 Hd2]; nra. Qed.

Lemma lens_ratio (d r : R) :
  0 < r -> 0 <= d <= 2 * r -> 0 <= d / (2 * r) <= 1.
Proof.
  intros Hr [Hd0 Hd2]; split.
  - apply Rmult_le_pos; [lra | left; apply Rinv_0_lt_compat; lra].
  - apply (Rmult_le_reg_r (2 * r)); [lra|].
    unfold Rdiv; rewrite Rmult_assoc, Rinv_l by lra; lra.
Qed.

Lemma overlap_R_lens (d r : R) :
  0 < r -> 0 < d < 2 * r ->
  circle_overlap_area_equal_r d r
  = Ok (2 * r * r * acos (d / (2 * r)) - 1 / 2 * d * sqrt (4 * r * r - d * d)).
Proof.
  intros Hr [Hd0 Hd2]; unfold circle_overlap_area_equal_r; cbn.
  replace (Rleb d 0) with false by (symmetry; apply Rleb_false; lra).
  replace (Rleb (2 * r) d) with false by (symmetry; apply Rleb_false; lra).
  rewrite py_div_R by lra; cbn.
  pose proof (lens_ratio d r Hr ltac:(lra)) as Hq.
  rewrite math_acos_R by lra; cbn.
  rewrite math_sqrt_R by (apply lens_radicand; lra); cbn.
  reflexivity.
Qed.

Lemma sqrt_lens (d r : R) :
  0 < r -> 0 <= d <= 2 * r ->
  sqrt (4 * r * r - d * d) = 2 * r * sin (acos (d / (2 * r))).
Proof.
  intros Hr Hd.
  pose proof (lens_ratio d r Hr Hd) as Hq.
  rewrite sin_acos by lra.
  replace (4 * r * r - d * d) with ((2 * r) * (2 * r) * (1 - (d / (2 * r))²))
    by (unfold Rsqr; field; lra).
  rewrite sqrt_mult; [| nra | unfold Rsqr; nra].
  rewrite sqrt_square by lra.
  reflexivity.
Qed.

Lemma overlap_R_angle (d r : R) :
  0 < r -> 0 <= d <= 2 * r ->
  circle_overlap_area_equal_r d r = Ok (r * r * segment_angle (acos (d / (2 * r)))).
Proof.
  intros Hr [Hd0 Hd2]; unfold segment_angle.
  destruct (Rle_lt_or_eq_dec 0 d Hd0) as [Hpos | <-].
  - destruct (Rle_lt_or_eq_dec d (2 * r) Hd2) as [Hlt | ->].
    + rewrite overlap_R_lens by lra.
      rewrite sqrt_lens by lra.
      pose proof (lens_ratio d r Hr ltac:(lra)) as Hq.
      set (t := acos (d / (2 * r))).
      assert (Hc : cos t = d / (2 * r)) by (apply cos_acos; lra).
      f_equal. rewrite Hc. field; lra.
    + rewrite overlap_R_far by lra.
      replace (2 * r / (2 * r)) with 1 by (field; lra).
      rewrite acos_1, sin_0; f_equal; ring.
  - rewrite overlap_R_nonpos by lra.
    replace (0 / (2 * r)) with 0 by (field; lra).
    rewrite acos_0, sin_PI2, cos_PI2; f_equal; field.
Qed.

Lemma segment_angle_deriv (t : R) :
  derivable_pt_lim segment_angle t (4 * sin t * sin t).
Proof.
  replace (4 * sin t * sin t)
    with (2 * 1 - (2 * cos t * cos t + (2 * sin t) * (- sin t))).
  - apply (derivable_pt_lim_minus (mult_real_fct 2 id) (mult_real_fct 2 sin * cos)%F).
    + apply derivable_pt_lim_scal, derivable_pt_lim_id.
    + apply (derivable_pt_lim_mult (mult_real_fct 2 sin) cos).
      * apply derivable_pt_lim_scal, derivable_pt_lim_sin.
      * apply derivable_pt_lim_cos.
  - pose proof (sin2_cos2 t) as H; unfold Rsqr in H; nra.
Qed.

Lemma chord_slack_deriv (t : R) :
  derivable_pt_lim chord_slack t (4 * sin t * sin t + 4 * - sin t).
Proof.
  apply (derivable_pt_lim_plus segment_angle (mult_real_fct 4 cos)).
  - apply segment_angle_deriv.
  - apply derivable_pt_lim_scal, derivable_pt_lim_cos.
Qed.

Lemma segment_angle_incr (a b : R) : a <= b -> segment_angle a <= segment_angle b.
Proof.
  intros [Hlt | ->]; [|lra].
  destruct (MVT_cor2 segment_angle (fun t => 4 * sin t * sin t) a b Hlt) as [c [Hc _]].
  - intros c _; apply segment_angle_deriv.
  - assert (0 <= 4 * sin c * sin c) by nra.
    assert (0 <= 4 * sin c * sin c * (b - a)) by (apply Rmult_le_pos; lra).
    lra.
Qed.

Lemma chord_slack_decr (a b : R) :
  0 <= a -> a <= b -> b <= PI -> chord_slack b <= chord_slack a.
Proof.
  intros Ha [Hlt | ->] Hb; [|lra].
  destruct (MVT_cor2 chord_slack (fun t => 4 * sin t * sin t + 4 * - sin t) a b Hlt)
    as [c [Hc Hin]].
  - intros c _; apply chord_slack_deriv.
  - assert (0 <= sin c) by (apply sin_ge_0; lra).
    pose proof (SIN_bound c) as [_ Hs1].
    assert (4 * sin c * sin c + 4 * - sin c <= 0) by nra.
    assert ((4 * sin c * sin c + 4 * - sin c) * (b - a) <= 0) by nra.
    lra.
Qed.

Lemma acos_decr (x y : R) : -1 <= x -> x <= y -> y <= 1 -> acos y <= acos x.
Proof.
  intros Hx Hxy Hy.
  destruct (Rle_lt_dec (acos y) (acos x)) as [Hle | Hlt]; [exact Hle|].
  exfalso.
  pose proof (acos_bound x) as Bx.
  pose proof (acos_bound y) as By.
  assert (Hc : cos (acos y) < cos (acos x))
    by (apply cos_decreasing_1; lra).
  rewrite !cos_acos in Hc by lra.
  lra.
Qed.

Lemma segment_angle_0 : segment_angle 0 = 0.
Proof. unfold segment_angle; rewrite sin_0; ring. Qed.

Lemma segment_angle_PI2 : segment_angle (PI / 2) = PI.
Proof. unfold segment_angle; rewrite cos_PI2; field. Qed.

(** The value the code returns on [[0, 2r]], with its bounds, its
    monotonicity and its modulus of continuity. *)
Lemma overlap_R_between (r d1 d2 : R) :
  0 < r -> 0 <= d1 -> d1 <= d2 -> d2 <= 2 * r ->
  exists a1 a2,
    circle_overlap_area_equal_r d1 r = Ok a1
    /\ circle_overlap_area_equal_r d2 r = Ok a2
    /\ 0 <= a2 /\ a2 <= a1 /\ a1 <= PI * r * r
    /\ a1 - a2 <= 2 * r * (d2 - d1).
Proof.
  intros Hr H1 H12 H2.
  exists (r * r * segment_angle (acos (d1 / (2 * r)))),
         (r * r * segment_angle (acos (d2 / (2 * r)))).
  rewrite !overlap_R_angle by lra.
  pose proof (lens_ratio d1 r Hr ltac:(lra)) as Q1.
  pose proof (lens_ratio d2 r Hr ltac:(lra)) as Q2.
  assert (Q12 : d1 / (2 * r) <= d2 / (2 * r)).
  { unfold Rdiv; apply Rmult_le_compat_r; [left; apply Rinv_0_lt_compat|]; lra. }
  set (t1 := acos (d1 / (2 * r))).
  set (t2 := acos (d2 / (2 * r))).
  assert (T21 : t2 <= t1) by (apply acos_decr; lra).
  assert (T2 : 0 <= t2) by apply acos_bound.
  assert (T1 : t1 <= PI / 2).
  { unfold t1; rewrite <- acos_0; apply acos_decr; lra. }
  pose proof PI_RGT_0 as Hpi.
  pose proof (segment_angle_incr 0 t2 T2) as G0; rewrite segment_angle_0 in G0.
  pose proof (segment_angle_incr t2 t1 T21) as G21.
  pose proof (segment_angle_incr t1 (PI / 2) T1) as G1; rewrite segment_angle_PI2 in G1.
  pose proof (chord_slack_decr t2 t1 T2 T21 ltac:(lra)) as S; unfold chord_slack in S.
  assert (C1 : cos t1 = d1 / (2 * r)) by (apply cos_acos; lra).
  assert (C2 : cos t2 = d2 / (2 * r)) by (apply cos_acos; lra).
  rewrite C1, C2 in S.
  assert (Hrr : 0 < r * r) by nra.
  repeat split; try reflexivity.
  - apply Rmult_le_pos; lra.
  - apply Rmult_le_compat_l; lra.
  - replace (PI * r * r) with (r * r * PI) by ring.
    apply Rmult_le_compat_l; lra.
  - assert (E : segment_angle t1 - segment_angle t2 <= 4 * (d2 / (2 * r) - d1 / (2 * r))) by lra.
    replace (4 * (d2 / (2 * r) - d1 / (2 * r))) with (2 * (d2 - d1) / r) in E by (field; lra).
    replace (2 * r * (d2 - d1)) with (r * r * (2 * (d2 - d1) / r)) by (field; lra).
    rewrite <- Rmult_minus_distr_l.
    apply Rmult_le_compat_l; lra.
Qed.


Lemma disk_area_pos (r : R) : 0 < r -> 0 < PI * r * r.
Proof. intros Hr; pose proof PI_RGT_0; apply Rmult_lt_0_compat; nra. Qed.










(** C6, as amended: in exact real arithmetic, for a radius [r > 0] the
    overlap area is non-increasing in the distance over [[0, 2r]],
    equivalently the lit fraction [1 - overlap / (pi * r^2)] is
    non-decreasing there; the area is exactly [pi * r^2] at distance 0 and
    exactly 0 at distance [2 * r]. *)
Theorem circle_overlap_area_non_increasing (r d1 d2 : R) :
  0 < r -> 0 <= d1 -> d1 <= d2 -> d2 <= 2 * r ->
  (exists a1 a2,
      circle_overlap_area_equal_r d1 r = Ok a1
      /\ circle_overlap_area_equal_r d2 r = Ok a2
      /\ a2 <= a1
      /\ 1 - a1 / (PI * r * r) <= 1 - a2 / (PI * r * r))
  /\ circle_overlap_area_equal_r 0 r = Ok (PI * r * r)
  /\ circle_overlap_area_equal_r (2 * r) r = Ok 0.
Proof.
  intros Hr H1 H12 H2; split; [|split].
  - destruct (overlap_R_between r d1 d2 Hr H1 H12 H2) as [a1 [a2 [E1 [E2 [_ [B _]]]]]].
    exists a1, a2; repeat split; try assumption.
    pose proof (disk_area_pos r Hr) as HA.
    apply Rplus_le_compat_l, Ropp_le_contravar.
    unfold Rdiv; apply Rmult_le_compat_r; [left; apply Rinv_0_lt_compat; exact HA | exact B].
  - apply overlap_R_nonpos; lra.
  - apply overlap_R_far; lra.
Qed.

(** C10, as amended: in exact real arithmetic, for a radius [r > 0] and
    any distance [d], the area [circle_overlap_area_equal_r d r] returns
    is at least 0 and at most [pi * r^2]. *)
Theorem circle_overlap_area_bounds (d r : R) :
  0 < r ->
  exists a, circle_overlap_area_equal_r d r = Ok a /\ 0 <= a <= PI * r * r.
Proof.
  intros Hr.
  pose proof (disk_area_pos r Hr) as HA.
  destruct (Rle_lt_dec d 0) as [H0 | H0].
  - exists (PI * r * r); rewrite overlap_R_nonpos by exact H0; split; [reflexivity | lra].
  - destruct (Rle_lt_dec (2 * r) d) as [H2 | H2].
    + exists 0; rewrite overlap_R_far by assumption; split; [reflexivity | lra].
    + destruct (overlap_R_between r d d Hr) as [a [a' [E [E' [B0 [_ [B1 _]]]]]]]; try lra.
      rewrite E in E'; injection E' as <-.
      exists a; split; [exact E | lra].
Qed.
















(** ** The lit mask in exact arithmetic *)

Local Open Scope R_scope.

Lemma Rleb_false_Rltb (x y : R) : Rleb x y = false -> Rltb x y = false.
Proof. intros Hxy; apply Rleb_false in Hxy; apply Rltb_false; lra. Qed.

Lemma render_lit_mask_R (P : Rasteriser) (phase_deg : R) (size margin : Z) :
  (0 <= size)%Z -> (2 * margin + 2 <= size)%Z ->
  render_lit_mask P phase_deg size margin = Ok (lit_grid P phase_deg size margin).
Proof.
  intros Hs Hm; pose proof (radius_pos size margin Hm).
  apply (@render_lit_mask_value R RFloat Rleb_false_Rltb); lia.
Qed.

Lemma sun_dir_R (phase_deg : R) :
  sun_dir phase_deg
  = (sin (Rpymod phase_deg 360 * (PI / 180)), 0, - cos (Rpymod phase_deg 360 * (PI / 180))).
Proof. reflexivity. Qed.

(** [mask_value] at [R], with the comparisons as propositions. *)
Lemma mask_value_R (m : Z) (s0 s1 s2 dx dy : R) :
  mask_value m (s0, s1, s2) dx dy
  = if (m =? 0)%Z then 0%Z
    else if Rle_dec (1 - dx * dx - dy * dy) 0 then 0%Z
    else if Rlt_dec 0 (dx * s0 + dy * s1 + sqrt (1 - dx * dx - dy * dy) * s2) then 255%Z
    else 0%Z.
Proof.
  unfold mask_value; cbn; unfold Rleb, Rltb.
  destruct (m =? 0)%Z; [reflexivity|].
  destruct (Rle_dec (1 - dx * dx - dy * dy) 0); [reflexivity|].
  destruct (Rlt_dec 0 _); reflexivity.
Qed.

(** The same characterisation in exact arithmetic, where the tests read
    [0 < nz_sq] and [0 < dot]. *)
Lemma lit_pixel_iff_exact (P : Rasteriser) (phase_deg : R) (size margin px py : Z) :
  (2 * margin + 2 <= size)%Z -> (0 <= px < size)%Z -> (0 <= py < size)%Z ->
  let cx := center_of size in
  let cy := cx in
  let r := radius_of size margin in
  let nx := IZR (px - cx) / IZR r in
  let ny := IZR (py - cy) / IZR r in
  let nz_sq := 1 - nx * nx - ny * ny in
  let theta := Rpymod phase_deg 360 * (PI / 180) in
  exists mask v,
    render_lit_mask P phase_deg size margin = Ok mask
    /\ getpixel mask px py = Some v
    /\ (v = 255%Z \/ v = 0%Z)
    /\ (v = 255%Z <->
        ellipse_fill P (bbox_of size margin) px py = true
        /\ 0 < nz_sq
        /\ 0 < nx * sin theta + ny * 0 + sqrt nz_sq * - cos theta).
Proof.
  intros Hs Hpx Hpy cx cy r nx ny nz_sq theta; subst cy.
  eexists; eexists; split; [apply render_lit_mask_R; lia|].
  split; [apply getpixel_grid; assumption|].
  rewrite sun_dir_R, mask_value_R.
  change (int_div (px - center_of size) (radius_of size margin)) with nx.
  change (int_div (py - center_of size) (radius_of size margin)) with ny.
  fold nz_sq theta.
  destruct (ellipse_fill P (bbox_of size margin) px py); cbn [Z.eqb].
  - destruct (Rle_dec nz_sq 0) as [Hz | Hz].
    + split; [right; reflexivity|]. split; [discriminate|]. intros [_ [Hn _]]; lra.
    + destruct (Rlt_dec 0 (nx * sin theta + ny * 0 + sqrt nz_sq * - cos theta)) as [Hd | Hd].
      * split; [left; reflexivity|]. split; [|reflexivity]. intros _; repeat split; lra.
      * split; [right; reflexivity|]. split; [discriminate|]. intros [_ [_ Hn]]; lra.
  - split; [right; reflexivity|]. split; [discriminate|]. intros [Hf _]; discriminate.
Qed.

(** *** New moon *)

Lemma Rpymod_0 : Rpymod 0 360 = 0.
Proof.
  unfold Rpymod.
  replace (0 / 360) with 0 by (unfold Rdiv; ring).
  pose proof fp_R0 as H; unfold frac_part in H.
  lra.
Qed.

Lemma sun_dir_new_moon : sun_dir 0 = (0, 0, -1).
Proof.
  rewrite sun_dir_R, Rpymod_0.
  replace (0 * (PI / 180)) with 0 by ring.
  rewrite sin_0, cos_0; reflexivity.
Qed.

Lemma mask_value_new_moon (m : Z) (dx dy : R) : mask_value m (sun_dir 0) dx dy = 0%Z.
Proof.
  rewrite sun_dir_new_moon, mask_value_R.
  destruct (m =? 0)%Z; [reflexivity|].
  destruct (Rle_dec (1 - dx * dx - dy * dy) 0); [reflexivity|].
  pose proof (sqrt_pos (1 - dx * dx - dy * dy)).
  destruct (Rlt_dec 0 _); [lra | reflexivity].
Qed.

(** New moon in exact arithmetic. *)
Lemma new_moon_is_shadow_exact (P : Rasteriser) (fraction : R) (waxing : bool)
    (size margin : Z) :
  (0 <= size)%Z -> (2 * margin + 2 <= size)%Z ->
  exists mask img,
    render_lit_mask P 0 size margin = Ok mask
    /\ render_moon_icon P fraction waxing 0 size margin = Ok img
    /\ forall x y,
        (0 <= x < size)%Z -> (0 <= y < size)%Z ->
        getpixel mask x y = Some 0%Z
        /\ (ellipse_fill P (bbox_of size margin) x y = true ->
            getpixel img x y = Some SHADOW /\ SHADOW <> MOON).
Proof.
  intros Hs Hm.
  apply (@dark_phase_is_shadow R RFloat Rleb_false_Rltb); try assumption.
  apply mask_value_new_moon.
Qed.

(** *** Waxing and waning *)

Lemma sin_period_Z (x : R) (k : Z) : sin (x + 2 * IZR k * PI) = sin x.
Proof.
  destruct k as [|p|p].
  - f_equal; ring.
  - rewrite <- (positive_nat_Z p), <- INR_IZR_INZ; apply sin_period.
  - rewrite <- (sin_period (x + 2 * IZR (Z.neg p) * PI) (Pos.to_nat p)).
    f_equal.
    change (Z.neg p) with (- Z.pos p)%Z.
    rewrite opp_IZR, <- (positive_nat_Z p), <- INR_IZR_INZ; ring.
Qed.

Lemma cos_period_Z (x : R) (k : Z) : cos (x + 2 * IZR k * PI) = cos x.
Proof.
  destruct k as [|p|p].
  - f_equal; ring.
  - rewrite <- (positive_nat_Z p), <- INR_IZR_INZ; apply cos_period.
  - rewrite <- (cos_period (x + 2 * IZR (Z.neg p) * PI) (Pos.to_nat p)).
    f_equal.
    change (Z.neg p) with (- Z.pos p)%Z.
    rewrite opp_IZR, <- (positive_nat_Z p), <- INR_IZR_INZ; ring.
Qed.

Lemma sun_angle_reduce (x : R) :
  Rpymod x 360 * (PI / 180) = x * (PI / 180) + 2 * IZR (- Int_part (x / 360)) * PI.
Proof. unfold Rpymod; rewrite opp_IZR; field. Qed.

Lemma sun_dir_degrees (phase_deg : R) :
  sun_dir phase_deg = (sin (phase_deg * (PI / 180)), 0, - cos (phase_deg * (PI / 180))).
Proof.
  rewrite sun_dir_R, sun_angle_reduce, sin_period_Z, cos_period_Z; reflexivity.
Qed.

(** In exact arithmetic the sun direction at [360 - theta] is the one at
    [theta] reflected in the vertical plane through the viewer. *)
Lemma sun_dir_mirror (phase_deg : R) :
  sun_dir (360 - phase_deg)
  = (- fst (fst (sun_dir phase_deg)), 0, snd (sun_dir phase_deg)).
Proof.
  rewrite !sun_dir_degrees; cbn [fst snd].
  replace ((360 - phase_deg) * (PI / 180))
    with (- (phase_deg * (PI / 180)) + 2 * IZR 1 * PI) by field.
  rewrite sin_period_Z, cos_period_Z, sin_neg, cos_neg; reflexivity.
Qed.

Lemma mask_value_mirror (m : Z) (s0 s2 dx dy : R) :
  mask_value m (- s0, 0, s2) (- dx) dy = mask_value m (s0, 0, s2) dx dy.
Proof.
  rewrite !mask_value_R.
  replace (- dx * - dx) with (dx * dx) by ring.
  replace (- dx * - s0) with (dx * s0) by ring.
  reflexivity.
Qed.

(** A pixel at least a radius away from the centre column is unlit. *)
Lemma mask_value_outside (m : Z) (sun : R * R * R) (x cx r : Z) (dy : R) :
  (1 <= r)%Z -> (r <= Z.abs (x - cx))%Z ->
  mask_value m sun (IZR (x - cx) / IZR r) dy = 0%Z.
Proof.
  intros Hr Hx; destruct sun as [[s0 s1] s2]; rewrite mask_value_R.
  destruct (m =? 0)%Z; [reflexivity|].
  assert (Hr' : 1 <= IZR r) by (apply IZR_le; exact Hr).
  assert (Hsq : 1 <= IZR (x - cx) / IZR r * (IZR (x - cx) / IZR r)).
  { replace (IZR (x - cx) / IZR r * (IZR (x - cx) / IZR r))
      with (IZR ((x - cx) * (x - cx)) / (IZR r * IZR r)) by (rewrite mult_IZR; field; lra).
    apply Rdiv_ge_bound; [nra|].
    rewrite Rmult_1_l, <- mult_IZR; apply IZR_le; nia. }
  destruct (Rle_dec _ 0) as [_ | Hn]; [reflexivity|].
  exfalso; apply Hn; nra.
Qed.

(** C3, as amended: in exact real arithmetic, for a margin of at least 0,
    [size >= 2 * margin + 2] and a disk mask that is symmetric about the
    centre column, the pixel [(2 * cx - px, py)] is lit at phase angle
    [360 - theta] if and only if the pixel [(px, py)] is lit at [theta]
    (a pixel outside the image counting as unlit). *)
Theorem lit_mask_mirror (P : Rasteriser) (phase_deg : R) (size margin px py : Z) :
  (0 <= margin)%Z -> (2 * margin + 2 <= size)%Z ->
  (forall x y,
      ellipse_fill P (bbox_of size margin) (2 * center_of size - x) y
      = ellipse_fill P (bbox_of size margin) x y) ->
  exists mask mask',
    render_lit_mask P phase_deg size margin = Ok mask
    /\ render_lit_mask P (360 - phase_deg) size margin = Ok mask'
    /\ (getpixel mask' (2 * center_of size - px) py = Some 255%Z
        <-> getpixel mask px py = Some 255%Z).
Proof.
  intros Hm Hs Hsym.
  pose proof (radius_pos size margin Hs) as Hr.
  pose proof (radius_center size margin) as Hrc.
  pose proof (center_double size) as Hcx.
  exists (lit_grid P phase_deg size margin), (lit_grid P (360 - phase_deg) size margin).
  rewrite !render_lit_mask_R by lia.
  split; [reflexivity|]. split; [reflexivity|].
  unfold lit_grid; rewrite !getpixel_grid_iff.
  rewrite Hsym, sun_dir_mirror.
  destruct (sun_dir phase_deg) as [[s0 s1] s2] eqn:Esun.
  assert (Es1 : s1 = 0) by (rewrite sun_dir_R in Esun; injection Esun; intros; subst; reflexivity).
  subst s1; cbn [fst snd].
  set (cx := center_of size) in *.
  set (r := radius_of size margin) in *.
  change (int_div (2 * cx - px - cx) r) with (IZR (2 * cx - px - cx) / IZR r).
  change (int_div (px - cx) r) with (IZR (px - cx) / IZR r).
  assert (Hdx : IZR (2 * cx - px - cx) / IZR r = - (IZR (px - cx) / IZR r)).
  { replace (2 * cx - px - cx)%Z with (- (px - cx))%Z by lia.
    assert (1 <= IZR r) by (apply IZR_le; exact Hr).
    rewrite opp_IZR; field; lra. }
  rewrite Hdx, mask_value_mirror.
  split; intros [Hx [Hy Hv]].
  - repeat split; try assumption; try lia.
    destruct (Z.le_gt_cases size px) as [Hout | Hin]; [|lia].
    rewrite mask_value_outside in Hv by lia; discriminate.
  - repeat split; try assumption; try lia.
    destruct (Z.le_gt_cases size (2 * cx - px)) as [Hout | Hin]; [|lia].
    rewrite mask_value_outside in Hv by lia; discriminate.
Qed.

(** C3, as stated, fails on binary64, where the cosine of the angle
    computed for 90 degrees is 6.1e-17 and the one for 270 degrees is
    -1.8e-16: with size 128 and margin 8 the centre pixel (64, 64), its own
    mirror image, is lit at 360 - 90 degrees and unlit at 90 degrees. *)
Lemma lit_mask_mirror_fails_binary64 :
  mask_at (render_lit_mask_b64 (360 - 90)%float 128 8) (2 * center_of 128 - 64) 64
  = Some 255%Z
  /\ mask_at (render_lit_mask_b64 90%float 128 8) 64 64 = Some 0%Z.
Proof. split; vm_compute; reflexivity. Qed.

(** ** The lens formula on binary64 *)

(** C10, as stated, fails on binary64: close to tangency the two terms of
    the lens formula cancel, and for radius 56 and distance 111.99999995
    the function returns about -3.8e-10, below 0. *)
Lemma overlap_negative_binary64 :
  exists a,
    circle_overlap_b64 111.99999995%float 56%float = Ok a
    /\ (a <? 0)%float = true.
Proof. eexists; split; vm_compute; reflexivity. Qed.

(** C6, as stated, fails on binary64: for radius 56 the distance grows
    from 111.99999995 to 112 and the area grows from about -3.8e-10 to 0. *)
Lemma overlap_increases_binary64 :
  exists a1 a2,
    circle_overlap_b64 111.99999995%float 56%float = Ok a1
    /\ circle_overlap_b64 112%float 56%float = Ok a2
    /\ (0 <=? 111.99999995)%float = true
    /\ (111.99999995 <=? 112)%float = true
    /\ (112 <=? 2 * 56)%float = true
    /\ (a1 <? a2)%float = true.
Proof. eexists; eexists; repeat split; vm_compute; reflexivity. Qed.

(** ** Witnesses *)

Local Open Scope Z_scope.

Lemma inscribed_symmetric (size margin x y : Z) :
  inscribed (bbox_of size margin) (2 * center_of size - x) y
  = inscribed (bbox_of size margin) x y.
Proof.
  unfold inscribed, bbox_of.
  set (cx := center_of size); set (r := radius_of size margin).
  replace (2 * (2 * cx - x) - (cx - r) - (cx + r)) with (- (2 * x - (cx - r) - (cx + r))) by lia.
  rewrite Z.mul_opp_opp.
  replace (cx - r <=? 2 * cx - x) with (x <=? cx + r)
    by (destruct (Z.leb_spec x (cx + r)), (Z.leb_spec (cx - r) (2 * cx - x)); try reflexivity; lia).
  replace (2 * cx - x <=? cx + r) with (cx - r <=? x)
    by (destruct (Z.leb_spec (cx - r) x), (Z.leb_spec (2 * cx - x) (cx + r)); try reflexivity; lia).
  rewrite (andb_comm (x <=? cx + r)); reflexivity.
Qed.

Lemma lit_pixel_iff_witness :
  exists mask v,
    render_lit_mask_b64 90%float SIZE MARGIN = Ok mask
    /\ getpixel mask 100 64 = Some v
    /\ (v = 255 \/ v = 0).
Proof.
  destruct (lit_pixel_iff Samples.libm reference_raster 90%float SIZE MARGIN 100 64)
    as [mask [v [Hm [Hv [H01 _]]]]]; try (unfold SIZE, MARGIN; lia).
  exists mask, v; repeat split; assumption.
Defined.

Lemma new_moon_is_shadow_witness :
  exists mask img,
    render_lit_mask_b64 0%float 128 8 = Ok mask
    /\ @render_moon_icon float (B64.binary64 Samples.libm) reference_raster
         0%float true 0%float 128 8 = Ok img
    /\ getpixel mask 64 64 = Some 0
    /\ getpixel img 64 64 = Some SHADOW
    /\ SHADOW <> MOON.
Proof.
  destruct (new_moon_is_shadow Samples.libm reference_raster 0%float true 128 8
              eq_refl eq_refl)
    as [mask [img [Hm [Hi Hpix]]]]; try lia.
  destruct (Hpix 64 64) as [Hv Hs]; try lia.
  destruct (Hs eq_refl) as [Hc Hne].
  exists mask, img; repeat split; assumption.
Defined.

Lemma lit_mask_mirror_witness :
  exists mask mask',
    render_lit_mask reference_raster 90%R 128 8 = Ok mask
    /\ render_lit_mask reference_raster (360 - 90)%R 128 8 = Ok mask'
    /\ (getpixel mask' (2 * center_of 128 - 100) 64 = Some 255
        <-> getpixel mask 100 64 = Some 255).
Proof.
  apply (lit_mask_mirror reference_raster 90%R 128 8 100 64); try lia.
  intros x y; apply (inscribed_symmetric 128 8).
Defined.

Lemma circle_overlap_area_non_increasing_witness :
  exists a1 a2,
    circle_overlap_area_equal_r 10%R 56%R = Ok a1
    /\ circle_overlap_area_equal_r 20%R 56%R = Ok a2
    /\ (a2 <= a1)%R.
Proof.
  destruct (circle_overlap_area_non_increasing 56 10 20) as [[a1 [a2 [E1 [E2 [Hle _]]]]] _];
    try lra.
  exists a1, a2; repeat split; assumption.
Defined.

Lemma circle_overlap_area_bounds_witness :
  exists a, circle_overlap_area_equal_r 30%R 56%R = Ok a /\ (0 <= a <= PI * 56 * 56)%R.
Proof. apply (circle_overlap_area_bounds 30 56); lra. Defined.


(** ** Further properties of the renderer *)

Local Open Scope R_scope.




Local Open Scope Z_scope.

Lemma mask_value_binary64_cases (m : B64.Libm) (v : Z) (sun : float * float * float)
    (dx dy : float) :
  (@mask_value float (B64.binary64 m) v sun dx dy = 0
   \/ @mask_value float (B64.binary64 m) v sun dx dy = 255)
  /\ (v = 0 -> @mask_value float (B64.binary64 m) v sun dx dy = 0).
Proof.
  destruct sun as [[s0 s1] s2]; rewrite mask_value_binary64.
  split.
  - destruct (v =? 0); [left; reflexivity|].
    destruct (_ <=? 0)%float; [left; reflexivity|].
    destruct (0 <? _)%float; [right | left]; reflexivity.
  - intros ->; reflexivity.
Qed.

(** X2: on binary64, for every size and margin with
    [size >= 2 * margin + 2], [render_moon_icon] returns an image without
    raising; each of its pixels is the background, the shadow or the moon
    colour, and a pixel that neither the ellipse fill nor the outline
    covers is the background colour. *)
Theorem render_palette (m : B64.Libm) (P : Rasteriser) (fraction : float) (waxing : bool)
    (phase_deg : float) (size margin : Z) :
  0 <= size -> 2 * margin + 2 <= size ->
  exists img,
    @render_moon_icon float (B64.binary64 m) P fraction waxing phase_deg size margin = Ok img
    /\ forall x y,
        0 <= x < size -> 0 <= y < size ->
        exists c,
          getpixel img x y = Some c
          /\ (c = BG \/ c = SHADOW \/ c = MOON)
          /\ (ellipse_fill P (bbox_of size margin) x y = false ->
              ellipse_outline P (bbox_of size margin) x y = false -> c = BG).
Proof.
  intros Hs Hm.
  pose proof (render_lit_mask_binary64 m P phase_deg size margin Hs Hm) as Hmask.
  destruct (@render_pixel float (B64.binary64 m) P fraction waxing phase_deg size margin _ Hmask)
    as [img [Himg Hpix]].
  exists img; split; [exact Himg|].
  intros x y Hx Hy.
  eexists; split.
  - apply Hpix; [assumption | assumption|].
    unfold lit_grid; apply getpixel_grid; assumption.
  - set (fill := ellipse_fill P (bbox_of size margin) x y).
    set (edge := ellipse_outline P (bbox_of size margin) x y).
    destruct (mask_value_binary64_cases m (if fill then 255 else 0)
                (@sun_dir float (B64.binary64 m) phase_deg)
                (@int_div float (B64.binary64 m) (x - center_of size) (radius_of size margin))
                (@int_div float (B64.binary64 m) (y - center_of size) (radius_of size margin)))
      as [Hcases Hzero].
    destruct fill; destruct edge.
    + destruct Hcases as [-> | ->]; split; try (intros; discriminate);
        right; left; reflexivity.
    + destruct Hcases as [-> | ->]; split; try (intros; discriminate);
        [right; left | right; right]; reflexivity.
    + rewrite (Hzero eq_refl); split; [right; left; reflexivity | intros; discriminate].
    + rewrite (Hzero eq_refl); split; [left; reflexivity | intros; reflexivity].
Qed.

Lemma render_palette_witness :
  exists img c,
    render_moon_icon_b64 90%float = Ok img
    /\ getpixel img 0 0 = Some c
    /\ (c = BG \/ c = SHADOW \/ c = MOON).
Proof.
  destruct (render_palette Samples.libm reference_raster 0%float true 90%float SIZE MARGIN)
    as [img [Himg Hpix]]; try (unfold SIZE, MARGIN; lia).
  destruct (Hpix 0 0) as [c [Hc [Hpal _]]]; try (unfold SIZE; lia).
  exists img, c; repeat split; assumption.
Defined.

(** The quarter-moon scene on binary64.  At phase angle 90, with size
    128 and margin 8, the right half of the disk is lit and the left half
    is in shadow, the corners are background, and the rim of the disk is
    dark. *)
Lemma quarter_moon_scene :
  image_at (render_moon_icon_b64 90%float) 100 64 = Some MOON
  /\ image_at (render_moon_icon_b64 90%float) 28 64 = Some SHADOW
  /\ image_at (render_moon_icon_b64 90%float) 0 0 = Some BG
  /\ image_at (render_moon_icon_b64 90%float) 127 127 = Some BG
  /\ image_at (render_moon_icon_b64 90%float) 120 64 = Some SHADOW.
Proof. repeat split; vm_compute; reflexivity. Qed.

(** * Further properties of the code *)

(** ** The inverse of the lit fraction: range and monotonicity *)

Local Open Scope R_scope.








(** ** The renderer: exceptions, phases and colours *)

Local Open Scope Z_scope.

Lemma range_cons (n : Z) : 0 < n -> exists l, range n = 0 :: l.
Proof.
  intros Hn; unfold range.
  destruct (Z.to_nat n) eqn:E; [lia|].
  cbn; eexists; reflexivity.
Qed.

Section RenderErrors.

Context {F : Type} `{PyFloat F}.

Lemma render_negative_size (P : Rasteriser) (fraction : F) (waxing : bool)
    (phase_deg : F) (size margin : Z) :
  size < 0 -> render_moon_icon P fraction waxing phase_deg size margin = Raise ValueError.
Proof.
  intros Hs; unfold render_moon_icon, Image_new.
  replace (size <? 0) with true by (symmetry; apply Z.ltb_lt; exact Hs).
  reflexivity.
Qed.

Lemma render_zero_radius (P : Rasteriser) (fraction : F) (waxing : bool)
    (phase_deg : F) (size margin : Z) :
  0 < size -> radius_of size margin = 0 ->
  render_moon_icon P fraction waxing phase_deg size margin = Raise ZeroDivisionError.
Proof.
  intros Hs Hr; unfold render_moon_icon.
  rewrite !Image_new_ok by lia; cbn [bind].
  unfold lit_loops.
  destruct (range_cons size Hs) as [l ->].
  cbn [for_each]; unfold py_int_truediv; rewrite Hr; reflexivity.
Qed.

(** X4: a negative size is refused by [Image.new] with a [ValueError] before
    anything is drawn; a positive size whose disk has radius 0 (that is,
    [size] is [2 * margin] or [2 * margin + 1]) makes the first division
    of the pixel loop raise [ZeroDivisionError]. *)
Theorem render_moon_icon_errors (P : Rasteriser) (fraction : F) (waxing : bool)
    (phase_deg : F) (size margin : Z) :
  (size < 0 ->
     render_moon_icon P fraction waxing phase_deg size margin = Raise ValueError)
  /\ (0 < size -> 2 * margin <= size <= 2 * margin + 1 ->
        render_moon_icon P fraction waxing phase_deg size margin = Raise ZeroDivisionError).
Proof.
  split; [apply render_negative_size|].
  intros Hs Hm; apply render_zero_radius; [exact Hs|].
  unfold radius_of.
  pose proof (Z.div_mod (size - 2 * margin) 2 ltac:(lia)).
  pose proof (Z.mod_pos_bound (size - 2 * margin) 2 ltac:(lia)).
  lia.
Qed.

End RenderErrors.

Local Open Scope R_scope.














Local Open Scope Z_scope.

(** X7: on binary64, for every phase angle, the colour of a pixel is decided
    by the three layers alone: it has the moon colour exactly where the lit
    mask is 255 and the outline does not pass, the background colour
    exactly where neither the disk nor the outline is drawn, and the shadow
    colour (black, also the outline's ink) everywhere else. *)
Theorem pixel_colours (m : B64.Libm) (P : Rasteriser) (fraction : float) (waxing : bool)
    (phase_deg : float) (size margin : Z) :
  0 <= size -> 2 * margin + 2 <= size ->
  exists mask img,
    @render_lit_mask float (B64.binary64 m) P phase_deg size margin = Ok mask
    /\ @render_moon_icon float (B64.binary64 m) P fraction waxing phase_deg size margin = Ok img
    /\ forall x y,
        0 <= x < size -> 0 <= y < size ->
        exists v c,
          getpixel mask x y = Some v
          /\ getpixel img x y = Some c
          /\ (c = MOON <-> v = 255 /\ ellipse_outline P (bbox_of size margin) x y = false)
          /\ (c = BG <-> ellipse_fill P (bbox_of size margin) x y = false
                         /\ ellipse_outline P (bbox_of size margin) x y = false)
          /\ (c <> MOON -> c <> BG -> c = SHADOW).
Proof.
  intros Hs Hm.
  pose proof (render_lit_mask_binary64 m P phase_deg size margin Hs Hm) as Hmask.
  destruct (@render_pixel float (B64.binary64 m) P fraction waxing phase_deg size margin _ Hmask)
    as [img [Himg Hpix]].
  eexists; exists img; split; [exact Hmask|]. split; [exact Himg|].
  intros x y Hx Hy.
  eexists; eexists; split; [unfold lit_grid; apply getpixel_grid; assumption|].
  split.
  - apply Hpix; [assumption | assumption|].
    unfold lit_grid; apply getpixel_grid; assumption.
  - set (fill := ellipse_fill P (bbox_of size margin) x y).
    set (edge := ellipse_outline P (bbox_of size margin) x y).
    destruct (mask_value_binary64_cases m (if fill then 255 else 0)
                (@sun_dir float (B64.binary64 m) phase_deg)
                (@int_div float (B64.binary64 m) (x - center_of size) (radius_of size margin))
                (@int_div float (B64.binary64 m) (y - center_of size) (radius_of size margin)))
      as [Hcases Hzero].
    destruct fill; destruct edge;
      try rewrite (Hzero eq_refl);
      try (destruct Hcases as [-> | ->]);
      vm_compute; repeat split; intros; try discriminate; try reflexivity;
      try (exfalso; tauto);
      repeat match goal with H : _ /\ _ |- _ => destruct H end; try discriminate;
      try (exfalso; auto; fail).
Qed.

Lemma pixel_colours_witness :
  exists mask img v c,
    render_lit_mask_b64 90%float SIZE MARGIN = Ok mask
    /\ render_moon_icon_b64 90%float = Ok img
    /\ getpixel mask 100 64 = Some v
    /\ getpixel img 100 64 = Some c
    /\ (c = MOON <-> v = 255 /\ inscribed_edge (bbox_of SIZE MARGIN) 100 64 = false).
Proof.
  destruct (pixel_colours Samples.libm reference_raster 0%float true 90%float SIZE MARGIN)
    as [mask [img [Em [Ei Hpix]]]]; try (unfold SIZE, MARGIN; lia).
  destruct (Hpix 100 64) as [v [c [Hv [Hc [Hmoon _]]]]]; try (unfold SIZE; lia).
  exists mask, img, v, c.
  split; [exact Em|]; split; [exact Ei|]; split; [exact Hv|]; split; [exact Hc | exact Hmoon].
Defined.

(** ** binary64: the icon is symmetric about its centre row *)

Lemma round_aux_opp (s : bool) (m e : Z) (l : location) :
  binary_round_aux prec emax (negb s) m e l = SFopp (binary_round_aux prec emax s m e l).
Proof.
  unfold binary_round_aux.
  destruct (shr_fexp prec emax m e l) as [mrs e'].
  destruct (shr_fexp prec emax _ e' loc_Exact) as [mrs' e''].
  destruct (shr_m mrs') as [|p|p]; try reflexivity.
  match goal with |- context [if ?c then _ else _] => destruct c end; reflexivity.
Qed.

Lemma SFdiv_opp_l (x y : spec_float) : SF64div (SFopp x) y = SFopp (SF64div x y).
Proof.
  destruct x as [sx|sx| |sx mx ex]; destruct y as [sy|sy| |sy my ey];
    try reflexivity; try (destruct sx, sy; reflexivity).
  unfold SF64div, SFdiv, SFopp.
  destruct (SFdiv_core_binary prec emax (Z.pos mx) ex (Z.pos my) ey) as [[mz ez] lz].
  replace (xorb (negb sx) sy) with (negb (xorb sx sy)) by (destruct sx, sy; reflexivity).
  apply round_aux_opp.
Qed.

Lemma SFmul_opp_opp (x : spec_float) : SF64mul (SFopp x) (SFopp x) = SF64mul x x.
Proof. destruct x as [[|]|[|]| |[|] mx ex]; reflexivity. Qed.

Lemma SFopp_involutive (x : spec_float) : SFopp (SFopp x) = x.
Proof. destruct x as [[|]|[|]| |[|] mx ex]; reflexivity. Qed.

Lemma b64_div_opp_l (x y : float) : (- x / y = - (x / y))%float.
Proof.
  apply Prim2SF_inj; rewrite div_spec, !opp_spec, div_spec; apply SFdiv_opp_l.
Qed.

Lemma b64_mul_opp_opp (x : float) : (- x * - x = x * x)%float.
Proof.
  apply Prim2SF_inj; rewrite !mul_spec, !opp_spec; apply SFmul_opp_opp.
Qed.

Lemma b64_opp_involutive (x : float) : (- - x = x)%float.
Proof. apply Prim2SF_inj; rewrite !opp_spec; apply SFopp_involutive. Qed.

Lemma of_Z_opp (z : Z) : z <> 0 -> B64.of_Z (- z) = (- B64.of_Z z)%float.
Proof.
  destruct z as [|p|p]; intros Hz; [contradiction | reflexivity|].
  cbn [Z.opp B64.of_Z]; rewrite b64_opp_involutive; reflexivity.
Qed.

(** The term [dy * 0.0] of the dot product is a zero whose sign follows
    [dy] (or a nan); the sign of that zero never reaches the test
    [dot > 0.0]. *)
Lemma SF_dot_sign_free (a y c : spec_float) :
  SFltb (S754_zero false)
    (SF64add (SF64add a (SF64mul (SFopp y) (S754_zero false))) c)
  = SFltb (S754_zero false)
      (SF64add (SF64add a (SF64mul y (S754_zero false))) c).
Proof.
  unfold SF64add, SF64mul.
  destruct y as [[|]|[|]| |[|] my ey]; cbn [SFmul SFopp xorb negb]; try reflexivity;
    destruct a as [[|]|[|]| |sa ma ea]; cbn [SFadd]; try reflexivity;
    destruct c as [[|]|[|]| |[|] mc ec]; reflexivity.
Qed.

Lemma b64_dot_sign_free (a y c : float) :
  (0 <? a + - y * 0 + c)%float = (0 <? a + y * 0 + c)%float.
Proof.
  rewrite !ltb_spec, !add_spec, !mul_spec, opp_spec.
  apply SF_dot_sign_free.
Qed.

Lemma mask_value_flip (m : B64.Libm) (v : Z) (s0 s2 dx dy : float) :
  @mask_value float (B64.binary64 m) v (s0, 0%float, s2) dx (- dy)%float
  = @mask_value float (B64.binary64 m) v (s0, 0%float, s2) dx dy.
Proof.
  rewrite !mask_value_binary64, b64_mul_opp_opp, b64_dot_sign_free; reflexivity.
Qed.

(** X8: on binary64, for every phase angle and every C library: when the
    rasteriser draws the ellipse symmetrically about the centre row, so are
    the lit mask and the icon.  Two pixels of the image that mirror each
    other in the row [cy] have the same mask value and the same colour. *)
Theorem icon_symmetric_about_centre_row (m : B64.Libm) (P : Rasteriser)
    (fraction : float) (waxing : bool) (phase_deg : float) (size margin px py : Z) :
  2 * margin + 2 <= size ->
  (forall x y,
      ellipse_fill P (bbox_of size margin) x (2 * center_of size - y)
      = ellipse_fill P (bbox_of size margin) x y) ->
  (forall x y,
      ellipse_outline P (bbox_of size margin) x (2 * center_of size - y)
      = ellipse_outline P (bbox_of size margin) x y) ->
  0 <= px < size -> 0 <= py < size -> 0 <= 2 * center_of size - py < size ->
  exists mask img,
    @render_lit_mask float (B64.binary64 m) P phase_deg size margin = Ok mask
    /\ @render_moon_icon float (B64.binary64 m) P fraction waxing phase_deg size margin = Ok img
    /\ getpixel mask px (2 * center_of size - py) = getpixel mask px py
    /\ getpixel img px (2 * center_of size - py) = getpixel img px py.
Proof.
  intros Hm Hfill Hedge Hpx Hpy Hpy'.
  assert (Hs : 0 <= size) by lia.
  pose proof (radius_pos size margin Hm) as Hr.
  pose proof (render_lit_mask_binary64 m P phase_deg size margin Hs Hm) as Hmask.
  destruct (@render_pixel float (B64.binary64 m) P fraction waxing phase_deg size margin _ Hmask)
    as [img [Himg Hpix]].
  eexists; exists img; split; [exact Hmask|]. split; [exact Himg|].
  assert (Hv : getpixel (@lit_grid float (B64.binary64 m) P phase_deg size margin)
                 px (2 * center_of size - py)
               = getpixel (@lit_grid float (B64.binary64 m) P phase_deg size margin) px py).
  { unfold lit_grid; rewrite !getpixel_grid by assumption.
    f_equal; rewrite Hfill, sun_dir_binary64.
    set (cy := center_of size) in *; set (r := radius_of size margin) in *.
    destruct (Z.eq_dec (py - cy) 0) as [E | E].
    - replace (2 * cy - py - cy) with (py - cy) by lia; reflexivity.
    - replace (2 * cy - py - cy) with (- (py - cy)) by lia.
      change (@int_div float (B64.binary64 m) (- (py - cy)) r)
        with (B64.of_Z (- (py - cy)) / B64.of_Z r)%float.
      rewrite (of_Z_opp _ E), b64_div_opp_l.
      apply mask_value_flip. }
  split; [exact Hv|].
  destruct (getpixel (@lit_grid float (B64.binary64 m) P phase_deg size margin) px py)
    as [v|] eqn:Ev.
  - rewrite (Hpix px (2 * center_of size - py) v Hpx Hpy' Hv), (Hpix px py v Hpx Hpy Ev).
    rewrite Hfill, Hedge; reflexivity.
  - unfold lit_grid in Ev; rewrite getpixel_grid in Ev by assumption; discriminate.
Qed.

Lemma inscribed_symmetric_rows (size margin x y : Z) :
  inscribed (bbox_of size margin) x (2 * center_of size - y)
  = inscribed (bbox_of size margin) x y.
Proof.
  unfold inscribed, bbox_of.
  set (cx := center_of size); set (r := radius_of size margin).
  replace (2 * (2 * cx - y) - (cx - r) - (cx + r)) with (- (2 * y - (cx - r) - (cx + r))) by lia.
  rewrite Z.mul_opp_opp.
  replace (cx - r <=? 2 * cx - y) with (y <=? cx + r)
    by (destruct (Z.leb_spec y (cx + r)), (Z.leb_spec (cx - r) (2 * cx - y)); try reflexivity; lia).
  replace (2 * cx - y <=? cx + r) with (cx - r <=? y)
    by (destruct (Z.leb_spec (cx - r) y), (Z.leb_spec (2 * cx - y) (cx + r)); try reflexivity; lia).
  destruct (cx - r <=? x), (x <=? cx + r), (cx - r <=? y), (y <=? cx + r); reflexivity.
Qed.

Lemma inscribed_edge_symmetric_rows (size margin x y : Z) :
  inscribed_edge (bbox_of size margin) x (2 * center_of size - y)
  = inscribed_edge (bbox_of size margin) x y.
Proof.
  unfold inscribed_edge.
  rewrite !inscribed_symmetric_rows.
  replace (2 * center_of size - y - 1) with (2 * center_of size - (y + 1)) by lia.
  replace (2 * center_of size - y + 1) with (2 * center_of size - (y - 1)) by lia.
  rewrite !inscribed_symmetric_rows.
  destruct (inscribed _ x y), (inscribed _ (x - 1) y), (inscribed _ (x + 1) y),
    (inscribed _ x (y - 1)), (inscribed _ x (y + 1)); reflexivity.
Qed.

Lemma icon_symmetric_about_centre_row_witness :
  exists mask img,
    render_lit_mask_b64 90%float 128 8 = Ok mask
    /\ render_moon_icon_b64 90%float = Ok img
    /\ getpixel mask 100 (2 * center_of 128 - 40) = getpixel mask 100 40
    /\ getpixel img 100 (2 * center_of 128 - 40) = getpixel img 100 40.
Proof.
  assert (Hc : center_of 128 = 64) by reflexivity.
  destruct (icon_symmetric_about_centre_row Samples.libm reference_raster 0%float true
              90%float 128 8 100 40) as [mask [img H]].
  - lia.
  - apply inscribed_symmetric_rows.
  - apply inscribed_edge_symmetric_rows.
  - lia.
  - lia.
  - rewrite Hc; lia.
  - exists mask, img; exact H.
Defined.

(** ** binary64: the bisection on a disk of radius zero *)

(** X11: on binary64, for a radius of zero and any fraction for which neither
    [f <= 0.0] nor [f >= 1.0] holds (a nan included), the first turn of the
    bisection divides by the area [pi * 0 * 0] and the call raises
    [ZeroDivisionError]. *)
Theorem d_from_lit_fraction_zero_radius (m : B64.Libm) (f : float) :
  (f <=? 0)%float = false -> (1 <=? f)%float = false ->
  @d_from_lit_fraction float (B64.binary64 m) f 0%float = Raise ZeroDivisionError
  /\ @d_from_lit_fraction float (B64.binary64 m) f (- 0)%float = Raise ZeroDivisionError.
Proof.
  intros H0 H1; unfold d_from_lit_fraction.
  cbn [fleb of_int B64.binary64]; change (B64.of_Z 0) with 0%float;
    change (B64.of_Z 1) with 1%float.
  rewrite H0, H1.
  split; reflexivity.
Qed.

Lemma d_from_lit_fraction_zero_radius_witness :
  @d_from_lit_fraction float (B64.binary64 Samples.libm) 0.5%float 0%float
  = Raise ZeroDivisionError.
Proof.
  apply (d_from_lit_fraction_zero_radius Samples.libm 0.5%float); reflexivity.
Defined.

(** ** binary64: nan and infinite arguments *)

Lemma b64_is_nan (x : float) : Prim2SF x = S754_nan -> x = nan.
Proof. intros Hx; apply Prim2SF_inj; rewrite Hx; reflexivity. Qed.

Lemma b64_nan_div (y : float) : (nan / y)%float = nan.
Proof. apply b64_is_nan; rewrite div_spec; reflexivity. Qed.

Lemma b64_sub_nan (x : float) : (x - nan)%float = nan.
Proof.
  apply b64_is_nan; rewrite sub_spec.
  change (Prim2SF nan) with S754_nan.
  destruct (Prim2SF x) as [[|]|[|]| |[|] mx ex]; reflexivity.
Qed.

Lemma b64_mul_nan (x : float) : (x * nan)%float = nan.
Proof.
  apply b64_is_nan; rewrite mul_spec.
  change (Prim2SF nan) with S754_nan.
  destruct (Prim2SF x) as [[|]|[|]| |[|] mx ex]; reflexivity.
Qed.

Lemma b64_nan_mul (x : float) : (nan * x)%float = nan.
Proof. apply b64_is_nan; rewrite mul_spec; reflexivity. Qed.

Lemma b64_nan_add (x : float) : (nan + x)%float = nan.
Proof. apply b64_is_nan; rewrite add_spec; reflexivity. Qed.

Lemma b64_add_nan (x : float) : (x + nan)%float = nan.
Proof.
  apply b64_is_nan; rewrite add_spec.
  change (Prim2SF nan) with S754_nan.
  destruct (Prim2SF x) as [[|]|[|]| |[|] mx ex]; reflexivity.
Qed.

Lemma b64_nan_ltb (x : float) : (nan <? x)%float = false.
Proof. rewrite ltb_spec; reflexivity. Qed.

Lemma b64_ltb_nan (x : float) : (x <? nan)%float = false.
Proof.
  rewrite ltb_spec; change (Prim2SF nan) with S754_nan.
  destruct (Prim2SF x) as [[|]|[|]| |[|] mx ex]; reflexivity.
Qed.

(** X19: on binary64 a nan distance passes both tests of
    [circle_overlap_area_equal_r] and reaches the lens formula: the call
    raises [ZeroDivisionError] when [2 * r] is zero, and otherwise it
    raises nothing ([math.acos] and [math.sqrt] accept a nan) and returns
    nan. *)
Theorem overlap_of_nan_distance (m : B64.Libm) (r : float) :
  ((2 * r =? 0)%float = true ->
     @circle_overlap_area_equal_r float (B64.binary64 m) nan r = Raise ZeroDivisionError)
  /\ ((2 * r =? 0)%float = false ->
      @circle_overlap_area_equal_r float (B64.binary64 m) nan r = Ok nan).
Proof.
  cbv beta iota delta [circle_overlap_area_equal_r py_div math_acos math_sqrt
                       fleb fltb feqb fmul fsub fdiv fneg fsqrt facos of_int c_half fpi
                       B64.binary64].
  change (B64.of_Z 0) with 0%float; change (B64.of_Z 1) with 1%float;
    change (B64.of_Z 2) with 2%float; change (B64.of_Z 4) with 4%float.
  replace (nan <=? 0)%float with false by reflexivity.
  replace (2 * r <=? nan)%float with false
    by (rewrite leb_spec; change (Prim2SF nan) with S754_nan;
        destruct (Prim2SF (2 * r)) as [[|]|[|]| |[|] mx ex]; reflexivity).
  split; intros ->; [reflexivity|].
  unfold bind at 1.
  rewrite b64_nan_div, b64_nan_ltb, b64_ltb_nan.
  unfold orb, bind at 1.
  rewrite (b64_nan_mul nan), b64_sub_nan, b64_nan_ltb.
  unfold bind.
  rewrite (b64_mul_nan 0.5), (b64_nan_mul (PrimFloat.sqrt nan)), b64_sub_nan.
  reflexivity.
Qed.

(** A dot product with a sun direction whose sine and cosine are nan is
    nan, and the test [dot > 0.0] fails. *)
Lemma b64_nan_dot (dx dy dz : float) :
  (0 <? dx * nan + dy * 0 + dz * - nan)%float = false.
Proof.
  rewrite b64_mul_nan, b64_nan_add.
  change (- nan)%float with nan.
  rewrite b64_mul_nan, b64_nan_add; reflexivity.
Qed.

Lemma sun_dir_unusable_phase (m : B64.Libm) (phase_deg : float) :
  B64.libm_sin m nan = nan -> B64.libm_cos m nan = nan ->
  phase_deg = nan \/ phase_deg = infinity \/ phase_deg = neg_infinity ->
  @sun_dir float (B64.binary64 m) phase_deg = (nan, 0%float, nan).
Proof.
  intros Hsin Hcos Hp; rewrite sun_dir_binary64.
  assert (Hangle : (B64.py_fmod phase_deg 360 * (B64.pi / 180))%float = nan)
    by (destruct Hp as [-> | [-> | ->]]; vm_compute; reflexivity).
  rewrite Hangle, Hsin, Hcos; reflexivity.
Qed.

(** X20: on binary64, with a C library whose sine and cosine of nan are
    nan, a phase angle that is nan or infinite raises nothing: [%] turns
    it into nan, every dot product is nan, no pixel is lit, and the icon
    is the one of the new moon, the whole disk in the shadow colour. *)
Theorem unusable_phase_renders_new_moon (m : B64.Libm) (P : Rasteriser)
    (fraction : float) (waxing : bool) (phase_deg : float) (size margin : Z) :
  B64.libm_sin m nan = nan -> B64.libm_cos m nan = nan ->
  phase_deg = nan \/ phase_deg = infinity \/ phase_deg = neg_infinity ->
  0 <= size -> 2 * margin + 2 <= size ->
  exists mask img,
    @render_lit_mask float (B64.binary64 m) P phase_deg size margin = Ok mask
    /\ @render_moon_icon float (B64.binary64 m) P fraction waxing phase_deg size margin = Ok img
    /\ forall x y,
        0 <= x < size -> 0 <= y < size ->
        getpixel mask x y = Some 0
        /\ (ellipse_fill P (bbox_of size margin) x y = true ->
            getpixel img x y = Some SHADOW /\ SHADOW <> MOON).
Proof.
  intros Hsin Hcos Hp Hs Hm.
  apply (@dark_phase_is_shadow float (B64.binary64 m) b64_leb_false_ltb); try assumption.
  intros v dx dy.
  rewrite (sun_dir_unusable_phase m phase_deg Hsin Hcos Hp), mask_value_binary64.
  destruct (v =? 0); [reflexivity|].
  destruct (_ <=? 0)%float; [reflexivity|].
  replace (0 <? dx * nan + dy * 0 + PrimFloat.sqrt (1 - dx * dx - dy * dy) * nan)%float
    with false; [reflexivity|].
  symmetry; apply (b64_nan_dot dx dy).
Qed.

Lemma unusable_phase_renders_new_moon_witness :
  exists mask img,
    render_lit_mask_b64 nan 128 8 = Ok mask
    /\ @render_moon_icon float (B64.binary64 Samples.libm) reference_raster
         0%float true nan 128 8 = Ok img
    /\ getpixel mask 100 64 = Some 0.
Proof.
  destruct (unusable_phase_renders_new_moon Samples.libm reference_raster 0%float true
              nan 128 8 eq_refl eq_refl (or_introl eq_refl))
    as [mask [img [Em [Ei Hpix]]]]; try lia.
  exists mask, img; split; [exact Em|]; split; [exact Ei|].
  apply Hpix; lia.
Defined.

(** ** The export stage: names of the files and runs of the script *)

Section IconNames.

Import Ascii String IconFiles.
Local Open Scope string_scope.

Lemma list_ascii_of_append (s t : String.string) :
  String.list_ascii_of_string (s ++ t)
  = (String.list_ascii_of_string s ++ String.list_ascii_of_string t)%list.
Proof. induction s as [|c s IH]; cbn; [reflexivity | rewrite IH; reflexivity]. Qed.

Lemma append_assoc (a b c : String.string) : (a ++ b) ++ c = a ++ b ++ c.
Proof. induction a as [|x a IH]; cbn; [reflexivity | rewrite IH; reflexivity]. Qed.

Lemma append_cancel_l (a s t : String.string) : a ++ s = a ++ t -> s = t.
Proof.
  induction a as [|x a IH]; cbn; intros E; [exact E|].
  injection E as E; exact (IH E).
Qed.

Lemma append_cancel_r (s t a : String.string) : s ++ a = t ++ a -> s = t.
Proof.
  intros E.
  apply (f_equal String.list_ascii_of_string) in E.
  rewrite !list_ascii_of_append in E.
  apply app_inv_tail in E.
  rewrite <- (String.string_of_list_ascii_of_string s),
          <- (String.string_of_list_ascii_of_string t), E.
  reflexivity.
Qed.

(** [str] of a natural number is its decimal numeral, which reads back as
    the number. *)
Lemma py_str_nonneg (n : Z) :
  0 <= n ->
  exists d,
    py_str n = DecimalString.NilEmpty.string_of_uint d /\ Z.of_uint d = n.
Proof.
  intros Hn; destruct n as [|p|p]; [| |lia].
  - exists (Decimal.D0 Decimal.Nil); split; reflexivity.
  - exists (Pos.to_uint p); split.
    + unfold py_str; cbn [Z.to_int DecimalString.NilZero.string_of_int].
      pose proof (DecimalPos.Unsigned.to_uint_nonnil p) as Hnil.
      destruct (Pos.to_uint p); [contradiction | reflexivity ..].
    + unfold Z.of_uint; rewrite DecimalPos.Unsigned.of_to; reflexivity.
Qed.

(** The padded numeral still reads back as the number. *)
Lemma format_02d_decode (n : Z) :
  0 <= n ->
  option_map Z.of_uint (DecimalString.NilEmpty.uint_of_string (format_02d n)) = Some n.
Proof.
  intros Hn; unfold format_02d.
  replace (n <? 0)%Z with false by (symmetry; apply Z.ltb_ge; exact Hn).
  destruct (py_str_nonneg n Hn) as [d [-> Hd]].
  destruct (String.length _ <? 2)%nat.
  - change ("0" ++ DecimalString.NilEmpty.string_of_uint d)
      with (DecimalString.NilEmpty.string_of_uint (Decimal.D0 d)).
    rewrite DecimalString.NilEmpty.usu; cbn [option_map]; f_equal; exact Hd.
  - rewrite DecimalString.NilEmpty.usu; cbn [option_map]; f_equal; exact Hd.
Qed.

Lemma format_02d_inj (a b : Z) :
  0 <= a -> 0 <= b -> format_02d a = format_02d b -> a = b.
Proof.
  intros Ha Hb E.
  pose proof (format_02d_decode a Ha) as Da.
  rewrite E, (format_02d_decode b Hb) in Da.
  injection Da as ->; reflexivity.
Qed.

(** The directory part of a path depends on [outdir] only. *)
Lemma icon_path_shape (outdir : String.string) :
  exists pre, forall age, icon_path outdir age = pre ++ "moon_" ++ format_02d age ++ ".jpg".
Proof.
  unfold icon_path, os_path_join.
  destruct ((String.length outdir =? 0)%nat || ends_with_sep outdir).
  - exists outdir; intros age; reflexivity.
  - exists (outdir ++ "/"); intros age; cbn [String.prefix String.append].
    rewrite append_assoc; reflexivity.
Qed.

(** X14: two different ages never share a file: the path of an icon determines
    its age, whatever the output directory. *)
Theorem icon_path_injective (outdir : String.string) (a b : Z) :
  0 <= a -> 0 <= b -> icon_path outdir a = icon_path outdir b -> a = b.
Proof.
  intros Ha Hb E.
  destruct (icon_path_shape outdir) as [pre Hpre].
  rewrite !Hpre in E.
  apply append_cancel_l, append_cancel_l, append_cancel_r in E.
  exact (format_02d_inj a b Ha Hb E).
Qed.

Lemma icon_path_injective_witness :
  0 <= 7 /\ 0 <= 7 /\ icon_path OUTDIR 7 = "./out/moon_07.jpg" /\ 7 = 7.
Proof.
  split; [lia|]; split; [lia|]; split; [reflexivity|].
  apply (icon_path_injective OUTDIR 7 7); [lia | lia | reflexivity].
Defined.

End IconNames.

Section IconRuns.

Import Ascii String IconFiles.

Lemma for_run_ok {A : Type} (body : A -> run unit) (g : A -> list event) (l : list A) :
  (forall x, In x l -> body x = (g x, Returned tt)) ->
  for_run body l = (flat_map g l, Returned tt).
Proof.
  induction l as [|x xs IH]; intros Hb; [reflexivity|].
  cbn [for_run flat_map].
  rewrite (Hb x (or_introl eq_refl)), IH by (intros y Hy; apply Hb; right; exact Hy).
  reflexivity.
Qed.

Lemma saved_paths_app (l1 l2 : list event) :
  saved_paths (l1 ++ l2) = saved_paths l1 ++ saved_paths l2.
Proof.
  induction l1 as [|e l1 IH]; [reflexivity|].
  destruct e; cbn [saved_paths app]; rewrite IH; reflexivity.
Qed.

Lemma saved_paths_icons (outdir : String.string) (imgs : Z -> image rgb) (l : list Z) :
  saved_paths (flat_map (fun age => icon_events outdir age (imgs age)) l)
  = map (icon_path outdir) l.
Proof.
  induction l as [|x xs IH]; [reflexivity|].
  cbn [flat_map map]; rewrite saved_paths_app, IH; reflexivity.
Qed.

Lemma range_NoDup (n : Z) : NoDup (range n).
Proof.
  unfold range; apply NoDup_map_NoDup_ForallPairs; [|apply seq_NoDup].
  intros a b _ _ E; lia.
Qed.

Section Generic.

Context {F : Type} `{PyFloat F}.
Variable P : Rasteriser.
Variable astro : Astronomy F.

(** The image [save_icon] saves for an age, when the search found a new
    moon and the renderer returned one. *)
Lemma save_icon_run (base : Time astro) (age : Z) (outdir : String.string) (size : Z)
    (img : image rgb) :
  base_new_moon astro = Some base ->
  (forall fraction waxing,
      render_moon_icon P fraction waxing
        (MoonPhase astro (time (Illumination_Moon astro (AddDays astro base (of_int age)))))
        size MARGIN = Ok img) ->
  save_icon P astro age outdir size = (icon_events outdir age img, Returned tt).
Proof.
  intros Hbase Himg; unfold save_icon, fraction_and_waxing_at_age.
  rewrite Hbase; cbn [of_outcome and_then].
  rewrite Himg; reflexivity.
Qed.

(** X17: the run stops at the first icon that cannot be made, after creating
    the output directory and before writing any file: when the search for
    the new moon found nothing ([AttributeError]), when the size is
    negative ([ValueError]), and when the size is positive but leaves the
    disk a radius of 0, as sizes 16 and 17 do ([ZeroDivisionError]).  With
    no day to draw, the directory is created and nothing else happens. *)
Theorem save_all_icons_stops_before_writing (days : Z) (outdir : String.string) (size : Z) :
  (days <= 0 ->
     save_all_icons P astro days outdir size = ([MakeDirs outdir true], Returned tt))
  /\ (0 < days -> base_new_moon astro = None ->
      save_all_icons P astro days outdir size
      = ([MakeDirs outdir true], Raised AttributeError))
  /\ (0 < days -> base_new_moon astro <> None -> size < 0 ->
      save_all_icons P astro days outdir size
      = ([MakeDirs outdir true], Raised (Kernel ValueError)))
  /\ (0 < days -> base_new_moon astro <> None -> size = 16 \/ size = 17 ->
      save_all_icons P astro days outdir size
      = ([MakeDirs outdir true], Raised (Kernel ZeroDivisionError))).
Proof.
  unfold save_all_icons; cbn [emit and_then].
  split; [|split; [|split]].
  - intros Hd; unfold range.
    replace (Z.to_nat days) with 0%nat by lia; reflexivity.
  - intros Hd Hbase; destruct (range_cons days Hd) as [l ->].
    cbn [for_run]; unfold save_icon, fraction_and_waxing_at_age.
    rewrite Hbase; reflexivity.
  - intros Hd Hbase Hs; destruct (range_cons days Hd) as [l ->].
    cbn [for_run]; unfold save_icon, fraction_and_waxing_at_age.
    destruct (base_new_moon astro) as [b|]; [|contradiction].
    cbn [of_outcome and_then].
    rewrite render_negative_size by exact Hs; reflexivity.
  - intros Hd Hbase Hs; destruct (range_cons days Hd) as [l ->].
    cbn [for_run]; unfold save_icon, fraction_and_waxing_at_age.
    destruct (base_new_moon astro) as [b|]; [|contradiction].
    cbn [of_outcome and_then].
    rewrite render_zero_radius by (destruct Hs as [-> | ->]; first [lia | reflexivity]).
    reflexivity.
Qed.

End Generic.

Variable m : B64.Libm.
Variable P : Rasteriser.
Variable astro : Astronomy float.

(** The icon of an age on binary64: what the renderer returns for the
    phase angle the almanac gives (nothing, should it raise). *)
Lemma icon_of_age_exists (base : Time astro) (size age : Z) :
  0 <= size -> 2 * MARGIN + 2 <= size ->
  exists img,
    forall fraction waxing,
      @render_moon_icon float (B64.binary64 m) P fraction waxing
        (MoonPhase astro (time (Illumination_Moon astro
           (AddDays astro base (B64.of_Z age)))))
        size MARGIN = Ok img.
Proof.
  intros Hs Hm.
  pose proof (render_lit_mask_binary64 m P
                (MoonPhase astro (time (Illumination_Moon astro
                   (AddDays astro base (B64.of_Z age))))) size MARGIN Hs Hm) as Hmask.
  destruct (@render_pixel float (B64.binary64 m) P 0%float true _ size MARGIN _ Hmask)
    as [img [Himg _]].
  exists img; intros fraction waxing; exact Himg.
Qed.

(** The loop of [save_all_icons], once the new moon is found and the size
    leaves the disk a radius of at least 1. *)
Lemma save_icons_loop (base : Time astro) (days : Z) (outdir : String.string) (size : Z) :
  @base_new_moon float (B64.binary64 m) astro = Some base ->
  18 <= size ->
  exists imgs : Z -> image rgb,
    (forall age fraction waxing,
        @render_moon_icon float (B64.binary64 m) P fraction waxing
          (MoonPhase astro (time (Illumination_Moon astro
             (AddDays astro base (B64.of_Z age)))))
          size MARGIN = Ok (imgs age))
    /\ for_run (fun age => @save_icon float (B64.binary64 m) P astro age outdir size)
         (range days)
       = (flat_map (fun age => icon_events outdir age (imgs age)) (range days),
          Returned tt).
Proof.
  intros Hbase Hs.
  assert (Himgs : forall age, exists img, forall fraction waxing,
             @render_moon_icon float (B64.binary64 m) P fraction waxing
               (MoonPhase astro (time (Illumination_Moon astro
                  (AddDays astro base (B64.of_Z age)))))
               size MARGIN = Ok img)
    by (intros age; apply icon_of_age_exists; unfold MARGIN; lia).
  set (imgs := fun age =>
            match @render_moon_icon float (B64.binary64 m) P 0%float true
                    (MoonPhase astro (time (Illumination_Moon astro
                       (AddDays astro base (B64.of_Z age)))))
                    size MARGIN with
            | Ok img => img
            | Raise _ => []
            end).
  assert (Hok : forall age fraction waxing,
             @render_moon_icon float (B64.binary64 m) P fraction waxing
               (MoonPhase astro (time (Illumination_Moon astro
                  (AddDays astro base (B64.of_Z age)))))
               size MARGIN = Ok (imgs age)).
  { intros age fraction waxing; destruct (Himgs age) as [img Himg].
    unfold imgs; rewrite (Himg 0%float true); apply Himg. }
  exists imgs; split; [exact Hok|].
  apply for_run_ok.
  intros age _; apply (save_icon_run P astro base); [exact Hbase|].
  intros fraction waxing; apply Hok.
Qed.

(** X15: on binary64, with a new moon found and a size of at least 18 (so
    that the disk has a radius of at least 1 with the margin of 8), a run
    of [save_all_icons] creates the directory and then, for each age from 0
    to [days - 1] in order, saves the icon rendered for the phase angle of
    that age and prints its path; it ends without an exception. *)
Theorem save_all_icons_writes_each_age (base : Time astro) (days : Z)
    (outdir : String.string) (size : Z) :
  @base_new_moon float (B64.binary64 m) astro = Some base ->
  18 <= size ->
  exists imgs : Z -> image rgb,
    (forall age fraction waxing,
        @render_moon_icon float (B64.binary64 m) P fraction waxing
          (MoonPhase astro (time (Illumination_Moon astro
             (AddDays astro base (B64.of_Z age)))))
          size MARGIN = Ok (imgs age))
    /\ @save_all_icons float (B64.binary64 m) P astro days outdir size
       = (MakeDirs outdir true
            :: flat_map (fun age => icon_events outdir age (imgs age)) (range days),
          Returned tt).
Proof.
  intros Hbase Hs.
  destruct (save_icons_loop base days outdir size Hbase Hs) as [imgs [Hok Hloop]].
  exists imgs; split; [exact Hok|].
  unfold save_all_icons; cbn [emit and_then].
  rewrite Hloop; reflexivity.
Qed.

(** X16: under the same conditions the run writes one file per age, to
    pairwise different paths: no icon overwrites another. *)
Theorem save_all_icons_never_overwrites (base : Time astro) (days : Z)
    (outdir : String.string) (size : Z) :
  @base_new_moon float (B64.binary64 m) astro = Some base ->
  18 <= size ->
  let written :=
    saved_paths (fst (@save_all_icons float (B64.binary64 m) P astro days outdir size)) in
  written = map (icon_path outdir) (range days)
  /\ List.length written = Z.to_nat days
  /\ NoDup written.
Proof.
  intros Hbase Hs written; subst written.
  destruct (save_icons_loop base days outdir size Hbase Hs) as [imgs [_ Hloop]].
  unfold save_all_icons; cbn [emit and_then]; rewrite Hloop.
  cbn [fst saved_paths app]; rewrite saved_paths_icons.
  split; [reflexivity|]. split; [rewrite length_map; apply range_length|].
  apply NoDup_map_NoDup_ForallPairs; [|apply range_NoDup].
  intros a b Ha Hb E; apply range_in in Ha, Hb.
  destruct (icon_path_shape outdir) as [pre Hpre].
  rewrite !Hpre in E.
  apply append_cancel_l, append_cancel_l, append_cancel_r in E.
  apply format_02d_inj; [lia | lia | exact E].
Qed.

(** X18: run as a script, with the settings of the source (30 days,
    directory [./out], size 128): when the almanac finds the new moon the
    program ends without an exception, having written exactly the thirty
    files [./out/moon_00.jpg] to [./out/moon_29.jpg], in this order. *)
Theorem main_writes_thirty_files (base : Time astro) :
  @base_new_moon float (B64.binary64 m) astro = Some base ->
  snd (@main float (B64.binary64 m) P astro) = Returned tt
  /\ saved_paths (fst (@main float (B64.binary64 m) P astro))
     = [
"./out/moon_00.jpg"; "./out/moon_01.jpg"; "./out/moon_02.jpg";
       "./out/moon_03.jpg"; "./out/moon_04.jpg"; "./out/moon_05.jpg";
       "./out/moon_06.jpg"; "./out/moon_07.jpg"; "./out/moon_08.jpg";
       "./out/moon_09.jpg"; "./out/moon_10.jpg"; "./out/moon_11.jpg";
       "./out/moon_12.jpg"; "./out/moon_13.jpg"; "./out/moon_14.jpg";
       "./out/moon_15.jpg"; "./out/moon_16.jpg"; "./out/moon_17.jpg";
       "./out/moon_18.jpg"; "./out/moon_19.jpg"; "./out/moon_20.jpg";
       "./out/moon_21.jpg"; "./out/moon_22.jpg"; "./out/moon_23.jpg";
       "./out/moon_24.jpg"; "./out/moon_25.jpg"; "./out/moon_26.jpg";
       "./out/moon_27.jpg"; "./out/moon_28.jpg"; "./out/moon_29.jpg"]%string.
Proof.
  intros Hbase; unfold main, save_all_icons; cbn [emit and_then].
  destruct (save_icons_loop base DAYS OUTDIR SIZE Hbase) as [imgs [_ ->]];
    [unfold SIZE; lia|].
  cbn [fst snd saved_paths app]; rewrite saved_paths_icons.
  split; reflexivity.
Qed.

End IconRuns.

Lemma save_all_icons_writes_each_age_witness :
  exists imgs : Z -> image rgb,
    @IconFiles.save_all_icons float (B64.binary64 Samples.libm) reference_raster
      toy_almanac 2 IconFiles.OUTDIR 128
    = (IconFiles.MakeDirs IconFiles.OUTDIR true
         :: flat_map (fun age => IconFiles.icon_events IconFiles.OUTDIR age (imgs age)) (range 2),
       IconFiles.Returned tt).
Proof.
  destruct (save_all_icons_writes_each_age Samples.libm reference_raster toy_almanac
              0%float 2 IconFiles.OUTDIR 128 eq_refl) as [imgs [_ E]]; [lia|].
  exists imgs; exact E.
Defined.

Lemma save_all_icons_never_overwrites_witness :
  NoDup (IconFiles.saved_paths
           (fst (@IconFiles.save_all_icons float (B64.binary64 Samples.libm) reference_raster
                   toy_almanac 4 IconFiles.OUTDIR 128))).
Proof.
  apply (save_all_icons_never_overwrites Samples.libm reference_raster toy_almanac
           0%float 4 IconFiles.OUTDIR 128 eq_refl); lia.
Defined.

(** ** The lit fraction as a function of the distance *)

Local Open Scope R_scope.








Local Open Scope Z_scope.

Lemma main_writes_thirty_files_witness :
  snd (@IconFiles.main float (B64.binary64 Samples.libm) reference_raster toy_almanac)
  = IconFiles.Returned tt.
Proof.
  apply (main_writes_thirty_files Samples.libm reference_raster toy_almanac 0%float eq_refl).
Defined.
